(** * drawercli: a shallow embedding of [Drawercli.go]

    The launcher lists the installed packages, probes each one with the
    platform tools from a pool of goroutines, sorts the records by label,
    hands them to an interactive selector and starts the chosen package.

    Go strings are byte strings: they are modelled as [string], a list of
    8-bit characters.  External processes are modelled by their observable
    outcome (standard output, standard error, whether [Run] returned an
    error); the goroutine pool is modelled by an interleaving step relation
    over the two channels. *)

From Stdlib Require Import Ascii String List Bool Arith NArith ZArith Lia.
From Stdlib Require Import Permutation Sorted Relations RelationClasses.
Import ListNotations.

Local Open Scope list_scope.
Local Open Scope string_scope.

(** ** Byte strings: the parts of Go's [strings] and [bufio] the program uses *)

Module GoStrings.

Definition nl : ascii := "010"%char.
Definition tab : ascii := "009"%char.
Definition cr : ascii := "013"%char.

(** [utf8.RuneSelf]: bytes below it are single-byte runes. *)
Definition RuneSelf : N := 128.

Definition isASCIIbyte (c : ascii) : bool := (N_of_ascii c <? RuneSelf)%N.

(** The table [asciiSpace] of package [strings]. *)
Definition asciiSpace (c : ascii) : bool :=
  let n := N_of_ascii c in
  ((n =? 9) || (n =? 10) || (n =? 11) || (n =? 12) || (n =? 13) || (n =? 32))%N.

(** The Unicode-aware slow paths of the standard library.  The program only
    reaches them on text with a byte outside ASCII; their tables are those
    of package [unicode] and are not reproduced: every statement below
    holds for whatever they compute. *)
Class Unicode := {
  (** [strings.TrimFunc(s, unicode.IsSpace)] *)
  TrimFuncIsSpace : string -> string;
  (** [strings.TrimRightFunc(s, unicode.IsSpace)] *)
  TrimRightFuncIsSpace : string -> string;
  (** [strings.Map(unicode.ToLower, s)] *)
  MapToLower : string -> string
}.

(** A table set for evaluating the model on ASCII text, where no field is
    consulted ([TrimSpace_ascii] and [ToLower_ascii] below). *)
Definition asciiOnly : Unicode :=
  {| TrimFuncIsSpace := fun s => s;
     TrimRightFuncIsSpace := fun s => s;
     MapToLower := fun s => s |}.

Fixpoint srev (s : string) : string :=
  match s with
  | EmptyString => EmptyString
  | String c s' => srev s' ++ String c EmptyString
  end.

Fixpoint drop (n : nat) (s : string) : string :=
  match n, s with
  | O, _ => s
  | S _, EmptyString => EmptyString
  | S n', String _ s' => drop n' s'
  end.

(** [strings.HasPrefix(s, p)] *)
Fixpoint HasPrefix (s p : string) {struct p} : bool :=
  match p, s with
  | EmptyString, _ => true
  | String _ _, EmptyString => false
  | String a p', String b s' => Ascii.eqb a b && HasPrefix s' p'
  end.

(** [strings.Index(s, substr)]: the offset of the first occurrence, [None]
    for Go's -1. *)
Fixpoint Index (s substr : string) : option nat :=
  if HasPrefix s substr then Some O
  else match s with
       | EmptyString => None
       | String _ s' => option_map S (Index s' substr)
       end.

(** [strings.Contains(s, substr)] is [Index(s, substr) >= 0]. *)
Definition Contains (s substr : string) : bool :=
  match Index s substr with Some _ => true | None => false end.

(** [strings.TrimPrefix(s, p)] *)
Definition TrimPrefix (s p : string) : string :=
  if HasPrefix s p then drop (String.length p) s else s.

(** The text before and after the first occurrence of [sep], that is
    [s[:m]] and [s[m+len(sep):]] for [m = Index(s, sep)]. *)
Fixpoint cut (s sep : string) : option (string * string) :=
  if HasPrefix s sep then Some (EmptyString, drop (String.length sep) s)
  else match s with
       | EmptyString => None
       | String c s' =>
           match cut s' sep with
           | Some (a, b) => Some (String c a, b)
           | None => None
           end
       end.

(** The loop of [strings.genSplit] for a non-empty separator: at most [n]
    cuts, then the rest. *)
Fixpoint genSplitLoop (n : nat) (s sep : string) : list string :=
  match n with
  | O => [s]
  | S n' =>
      match cut s sep with
      | None => [s]
      | Some (a, rest) => a :: genSplitLoop n' rest sep
      end
  end.

(** [strings.SplitN(s, sep, n)] for [n > 0] and a non-empty [sep]: the
    count is capped at [len(s)+1] before the loop runs [n-1] times. *)
Definition SplitN (s sep : string) (n : nat) : list string :=
  genSplitLoop (Nat.min n (String.length s + 1) - 1) s sep.

(** [strings.Split(s, sep)] for a non-empty [sep]: the loop runs
    [Count(s, sep)] times; a non-empty separator occurs at most [len(s)]
    times and the loop stops at the first miss, so [len(s)] rounds give the
    same slice. *)
Definition Split (s sep : string) : list string :=
  genSplitLoop (String.length s) s sep.

Fixpoint trimLeftByte (s : string) (c : ascii) : string :=
  match s with
  | EmptyString => EmptyString
  | String a s' => if Ascii.eqb a c then trimLeftByte s' c else s
  end.

Definition trimRightByte (s : string) (c : ascii) : string :=
  srev (trimLeftByte (srev s) c).

(** [strings.Trim(s, cutset)] for a cutset of one ASCII byte, the only way
    the program calls it: [trimLeftByte(trimRightByte(s, c), c)]. *)
Definition Trim (s : string) (c : ascii) : string :=
  trimLeftByte (trimRightByte s c) c.

Section WithUnicode.
Context {U : Unicode}.

(** Second loop of [strings.TrimSpace], on the reversed text: skip ASCII
    space from the end; a non-ASCII byte hands what is left to
    [TrimRightFunc]. *)
Fixpoint trimSpaceStop (r : string) : string :=
  match r with
  | EmptyString => EmptyString
  | String c r' =>
      if negb (isASCIIbyte c) then TrimRightFuncIsSpace (srev r)
      else if asciiSpace c then trimSpaceStop r'
      else srev r
  end.

(** First loop of [strings.TrimSpace]: skip ASCII space from the start; a
    non-ASCII byte hands the rest to [TrimFunc]. *)
Fixpoint trimSpaceStart (s : string) : string :=
  match s with
  | EmptyString => EmptyString
  | String c s' =>
      if negb (isASCIIbyte c) then TrimFuncIsSpace s
      else if asciiSpace c then trimSpaceStart s'
      else trimSpaceStop (srev s)
  end.

(** [strings.TrimSpace(s)] *)
Definition TrimSpace (s : string) : string := trimSpaceStart s.

Fixpoint isASCII (s : string) : bool :=
  match s with
  | EmptyString => true
  | String c s' => isASCIIbyte c && isASCII s'
  end.

Definition isUpperByte (c : ascii) : bool :=
  let n := N_of_ascii c in ((65 <=? n) && (n <=? 90))%N.

Fixpoint hasUpper (s : string) : bool :=
  match s with
  | EmptyString => false
  | String c s' => isUpperByte c || hasUpper s'
  end.

Definition lowerByte (c : ascii) : ascii :=
  if isUpperByte c then ascii_of_N (N_of_ascii c + 32) else c.

Fixpoint lowerASCII (s : string) : string :=
  match s with
  | EmptyString => EmptyString
  | String c s' => String (lowerByte c) (lowerASCII s')
  end.

(** [strings.ToLower(s)]: ASCII-only text is lowered byte by byte (and
    returned as is when it has no upper-case letter); anything else goes
    through [Map(unicode.ToLower, s)]. *)
Definition ToLower (s : string) : string :=
  if isASCII s then (if hasUpper s then lowerASCII s else s)
  else MapToLower s.

End WithUnicode.

(** [bufio.MaxScanTokenSize] *)
Definition MaxScanTokenSize : N := 65536.

(** [dropCR] of package [bufio]: one trailing carriage return is removed. *)
Definition dropCR (l : string) : string :=
  match srev l with
  | String c r' => if Ascii.eqb c cr then srev r' else l
  | EmptyString => l
  end.

(** A line fits the scanner's buffer when it is shorter than
    [MaxScanTokenSize]; at a longer one [Scan] stops with [ErrTooLong]. *)
Definition fitsBuffer (l : string) : bool :=
  (N.of_nat (String.length l) <? MaxScanTokenSize)%N.

Fixpoint takeWhile {A} (f : A -> bool) (l : list A) : list A :=
  match l with
  | [] => []
  | x :: l' => if f x then x :: takeWhile f l' else []
  end.

(** [ScanLines] yields no token for an empty rest at the end of input. *)
Fixpoint dropFinalEmpty (ls : list string) : list string :=
  match ls with
  | [] => []
  | [l] => if String.eqb l EmptyString then [] else [l]
  | l :: ls' => l :: dropFinalEmpty ls'
  end.

(** The tokens a [bufio.Scanner] with the default [ScanLines] split yields,
    in order, over a [strings.Reader] on [s]. *)
Definition scanLines (s : string) : list string :=
  map dropCR (takeWhile fitsBuffer (dropFinalEmpty (Split s (String nl EmptyString)))).

End GoStrings.
Import GoStrings.

(** ** [sort.Slice] *)

Module GoSort.

(** [pdqsort_func] on a slice longer than [maxInsertion]: the pattern
    defeating quicksort of the standard library, taken by its contract (see
    [SortContract]) rather than reproduced. *)
Class Pdqsort := {
  pdqsort_long : forall {A : Type}, (A -> A -> bool) -> list A -> list A
}.

Section Insertion.
Context {A : Type} (less : A -> A -> bool).

(** The inner loop of [insertionSortLessFunc]: the element at [j] is
    swapped towards the front while it is [less] than its left neighbour.
    [rp] is the sorted prefix, last element first. *)
Fixpoint sink (x : A) (rp : list A) : list A :=
  match rp with
  | [] => [x]
  | y :: rp' => if less x y then y :: sink x rp' else x :: rp
  end.

(** The outer loop of [insertionSortLessFunc]. *)
Fixpoint insertionLoop (rp rest : list A) : list A :=
  match rest with
  | [] => List.rev rp
  | x :: rest' => insertionLoop (sink x rp) rest'
  end.

Definition insertionSortLessFunc (l : list A) : list A :=
  insertionLoop [] l.

End Insertion.

Definition maxInsertion : nat := 12.

(** [sort.Slice(x, less)], seen as a function from the slice before to the
    slice after.  The branch for a slice of at most [maxInsertion] elements
    is that of [pdqsort_func] (Go 1.19 and later), which sorts it by
    insertion; the theorems about the sort below use of either branch
    only that it permutes the slice and leaves it sorted, and the examples
    sort two or three records, which every version of the library does by
    insertion. *)
Definition Slice {P : Pdqsort} {A : Type} (less : A -> A -> bool) (l : list A) : list A :=
  if (List.length l <=? maxInsertion)%nat then insertionSortLessFunc less l
  else pdqsort_long less l.

(** What [sort.SliceIsSorted] checks: no element is [less] than the one
    before it. *)
Definition asc {A : Type} (less : A -> A -> bool) (a b : A) : Prop :=
  less b a = false.

Definition isSorted {A : Type} (less : A -> A -> bool) (l : list A) : Prop :=
  Sorted (asc less) l.

(** The order of the sorted prefix read from its last element. *)
Definition desc {A : Type} (less : A -> A -> bool) (a b : A) : Prop :=
  less a b = false.

(** A strict weak ordering, which [sort.Slice] asks [less] to be. *)
Record StrictWeak {A : Type} (less : A -> A -> bool) : Prop := {
  less_asym : forall a b, less a b = true -> less b a = false;
  less_negtrans : forall a b c,
    less a b = false -> less b c = false -> less a c = false
}.

(** The contract of the library's sort on long slices: it permutes the
    slice and leaves it sorted. *)
Class SortContract (P : Pdqsort) : Prop := {
  pdqsort_perm : forall (A : Type) (less : A -> A -> bool) (l : list A),
    Permutation l (pdqsort_long less l);
  pdqsort_sorted : forall (A : Type) (less : A -> A -> bool) (l : list A),
    StrictWeak less -> isSorted less (pdqsort_long less l)
}.

(** A sorter for evaluating the model: slices of every length by
    insertion.  It meets the contract ([insertionOnly_contract] below), and
    on a slice of at most [maxInsertion] elements every sorter gives what
    it gives ([Slice_short]). *)
Definition insertionOnly : Pdqsort :=
  {| pdqsort_long := fun A less l => insertionSortLessFunc less l |}.

End GoSort.
Import GoSort.

(** ** The program *)

Record AppInfo := {
  Label : string;
  Package : string;
  Main : string
}.

(** What running an external command gives: the bytes written to the two
    buffers and whether [cmd.Run()] returned an error (a non-zero exit, a
    missing binary, or the context's deadline). *)
Record CmdResult := {
  stdout : string;
  stderr : string;
  failed : bool
}.

(** The world outside the process. *)
Record Env := {
  (** [exec.CommandContext(ctx, name, args...)] run with both buffers *)
  command : string -> list string -> CmdResult;
  (** [runCmdBytes(ctx, name, args...)], a helper the file calls and does
      not define: its two results, the text and whether the error is
      non-nil *)
  runCmdBytes : string -> list string -> string * bool;
  (** the selector: standard input to standard output and whether [Run]
      returned an error *)
  fzf : string -> string * bool;
  (** [runtime.NumCPU()] *)
  NumCPU : Z
}.

Section Program.
Context {U : Unicode} {P : Pdqsort}.

Definition runCmd (e : Env) (name : string) (args : list string) : string * bool :=
  let r := command e name args in
  if failed r
  then (TrimSpace (stdout r ++ String nl EmptyString ++ stderr r), true)
  else (TrimSpace (stdout r), false).

(** The loop of [getPackages] over the lines of the listing. *)
Fixpoint packageLines (lines : list string) : list string :=
  match lines with
  | [] => []
  | l :: rest =>
      let l := TrimSpace l in
      let l := TrimPrefix l "package:" in
      if negb (String.eqb l "") then l :: packageLines rest
      else packageLines rest
  end.

Definition getPackages (e : Env) : list string :=
  let out := fst (runCmd e "pm" ["list"; "packages"; "--user"; "0"; "-3"]) in
  if String.eqb out "" then []
  else packageLines (Split out (String nl EmptyString)).

Fixpoint firstContaining (lines : list string) (substr : string) : string :=
  match lines with
  | [] => ""
  | l :: rest => if Contains l substr then l else firstContaining rest substr
  end.

Definition firstLineContaining (s substr : string) : string :=
  firstContaining (scanLines s) substr.

Definition resolveArgs (pkg : string) : list string :=
  ["resolve-activity"; "--user"; "0";
   "-a"; "android.intent.action.MAIN";
   "-c"; "android.intent.category.LAUNCHER";
   pkg].

(** Lines 76-83 of [probePackage]: the main activity in the resolver's
    output. *)
Definition mainOf (resOut : string) : string :=
  let line := firstLineContaining resOut "name=" in
  if negb (String.eqb line "") then
    match Index line "name=" with
    | Some idx => TrimSpace (drop (idx + String.length "name=") line)
    | None => ""
    end
  else "".

(** Lines 87-95: the first line of the path listing that is not empty once
    trimmed and stripped of its prefix. *)
Fixpoint firstPath (lines : list string) : string :=
  match lines with
  | [] => ""
  | pl :: rest =>
      let pl := TrimSpace pl in
      let pl := TrimPrefix pl "package:" in
      if negb (String.eqb pl "") then pl else firstPath rest
  end.

Definition apkPathOf (pathOut : string) : string :=
  firstPath (Split pathOut (String nl EmptyString)).

(** Lines 102-113: the scan of the badging dump. *)
Fixpoint scanLabel (lines : list string) : string :=
  match lines with
  | [] => ""
  | l :: rest =>
      if Contains l "application-label:" then
        match Index l "application-label:" with
        | Some start =>
            let l := drop (start + String.length "application-label:") l in
            Trim l "'"%char
        | None => scanLabel rest
        end
      else scanLabel rest
  end.

(** Lines 97-115: the label for an install path. *)
Definition labelOf (e : Env) (apkPath : string) : string :=
  if negb (String.eqb apkPath "") then
    let '(aaptOut, err) := runCmdBytes e "aapt" ["dump"; "badging"; apkPath] in
    if negb err && negb (String.eqb aaptOut "") then scanLabel (scanLines aaptOut)
    else ""
  else "".

Definition resOutOf (e : Env) (pkg : string) : string :=
  fst (runCmd e "pm" (resolveArgs pkg)).

Definition pathOutOf (e : Env) (pkg : string) : string :=
  fst (runCmd e "pm" ["path"; pkg; "--user"; "0"]).

(** [probePackage]: the record, [None] for a nil pointer, and whether the
    error is non-nil. *)
Definition probePackage (e : Env) (pkg : string) : option AppInfo * bool :=
  let resOut := resOutOf e pkg in
  let main := mainOf resOut in
  let pathOut := pathOutOf e pkg in
  let apkPath := apkPathOf pathOut in
  let label := labelOf e apkPath in
  let label := if String.eqb label "" then pkg else label in
  let main := if String.eqb main "" then "UNKNOWN_MAIN" else main in
  (Some {| Label := label; Package := pkg; Main := main |}, false).

(** Lines 145-151 of [main]. *)
Definition numWorkers (ncpu : Z) : Z :=
  let numWorkers := ncpu in
  let numWorkers := if (numWorkers <? 4)%Z then 4%Z else numWorkers in
  let numWorkers := if (numWorkers >? 16)%Z then 16%Z else numWorkers in
  numWorkers.

(** The comparison given to [sort.Slice] at line 187. *)
Definition lessLabel (a b : AppInfo) : bool :=
  String.ltb (ToLower (Label a)) (ToLower (Label b)).

Definition sortApps (apps : list AppInfo) : list AppInfo :=
  Slice lessLabel apps.

(** The line written for one record, [fmt.Sprintf("%s\t%s|%s\n", ...)]. *)
Definition exchangeLine (a : AppInfo) : string :=
  Label a ++ String tab EmptyString ++ Package a ++ "|" ++ Main a.

Definition formatLine (a : AppInfo) : string :=
  exchangeLine a ++ String nl EmptyString.

Definition fzfInputOf (apps : list AppInfo) : string :=
  String.concat "" (map formatLine apps).

(** What the process does that the outside can see. *)
Inductive Event :=
| PrintErr (line : string)
| RunSelector (stdin : string)
| Run (name : string) (args : list string).

Record Outcome := {
  events : list Event;
  exitCode : Z
}.

(** The two final actions are the only commands the process itself runs
    after the selector. *)
Definition isDispatch (ev : Event) : bool :=
  match ev with Run _ _ => true | _ => false end.

Definition fzfArgs : list string :=
  ["--with-nth=1"; "--delimiter=" ++ String tab EmptyString; "--layout=reverse"].

(** Lines 212-226: the chosen line back into package and activity. *)
Definition parseSelection (chosen : string) : string * string + string :=
  let parts := SplitN chosen (String tab EmptyString) 2 in
  if (List.length parts <? 2)%nat then inr "unexpected selection format"
  else
    let line := nth 1 parts "" in
    let pair := SplitN line "|" 2 in
    if (List.length pair <? 2)%nat then inr "unexpected package|main format"
    else inl (nth 0 pair "", nth 1 pair "").

(** Lines 228-237: the final action. *)
Definition dispatch (pkg intent : string) : Event :=
  if String.eqb intent "UNKNOWN_MAIN" then
    let playstoreURL := "https://play.google.com/store/apps/details?id=" ++ pkg in
    Run "termux-open-url" [playstoreURL]
  else
    Run "am" ["start"; "--user"; "0"; "-n"; pkg ++ "/" ++ intent].

(** Lines 207-237, from the selector's output on. *)
Definition handleChosen (chosenBuf : string) : Outcome :=
  let chosen := TrimSpace chosenBuf in
  if String.eqb chosen "" then {| events := []; exitCode := 1 |}
  else
    match parseSelection chosen with
    | inr msg => {| events := [PrintErr msg]; exitCode := 1 |}
    | inl (pkg, intent) =>
        {| events := [dispatch pkg intent]; exitCode := 0 |}
    end.

(** Lines 187-237, from the collected slice on. *)
Definition present (e : Env) (apps : list AppInfo) : Outcome :=
  let apps := sortApps apps in
  let fzfInput := fzfInputOf apps in
  let '(chosenBuf, err) := fzf e fzfInput in
  if err then {| events := [RunSelector fzfInput]; exitCode := 1 |}
  else
    let o := handleChosen chosenBuf in
    {| events := RunSelector fzfInput :: events o; exitCode := exitCode o |}.

(** [main], given the slice [apps] as it stands after the loop over [out]
    (lines 182-185); module [Pool] below says which slices that can be. *)
Definition main (e : Env) (collected : list AppInfo) : Outcome :=
  let pkgs := getPackages e in
  if (List.length pkgs =? 0)%nat then
    {| events := [PrintErr "no packages found"]; exitCode := 1 |}
  else present e collected.

End Program.

(** ** The worker pool (lines 153-185 of [main])

    The goroutines interleave at their channel operations.  A state holds
    what the main goroutine still has to send, the two buffered channels,
    where each worker stands in its loop, and the slice [apps]. *)

Module Pool.

(** One worker goroutine (lines 159-169). *)
Inductive Worker :=
| Receiving                  (* at [for pkg := range in] *)
| Probing (pkg : string)     (* inside [probePackage(pctx, pkg)] *)
| Sending (info : AppInfo)   (* at [out <- info] *)
| Returned.                  (* left the loop, [wg.Done()] has run *)

Record State := {
  toSend : list string;      (* the rest of [for _, p := range pkgs] *)
  inq : list string;         (* the buffer of channel [in] *)
  inClosed : bool;
  workers : list Worker;
  outq : list AppInfo;       (* the buffer of channel [out] *)
  outClosed : bool;
  apps : list AppInfo;
  drained : bool             (* [for a := range out] has ended *)
}.

Definition set_workers (s : State) (ws : list Worker) : State :=
  {| toSend := toSend s; inq := inq s; inClosed := inClosed s; workers := ws;
     outq := outq s; outClosed := outClosed s; apps := apps s; drained := drained s |}.

Definition set_inq (s : State) (ps q : list string) (c : bool) : State :=
  {| toSend := ps; inq := q; inClosed := c; workers := workers s;
     outq := outq s; outClosed := outClosed s; apps := apps s; drained := drained s |}.

Definition set_outq (s : State) (q : list AppInfo) (c : bool) : State :=
  {| toSend := toSend s; inq := inq s; inClosed := inClosed s; workers := workers s;
     outq := q; outClosed := c; apps := apps s; drained := drained s |}.

Definition set_apps (s : State) (l : list AppInfo) (d : bool) : State :=
  {| toSend := toSend s; inq := inq s; inClosed := inClosed s; workers := workers s;
     outq := outq s; outClosed := outClosed s; apps := l; drained := d |}.

(** Lines 165-167: a record is sent when the error is nil and the pointer
    is not. *)
Definition afterProbe (r : option AppInfo * bool) : Worker :=
  match r with
  | (Some info, false) => Sending info
  | _ => Receiving
  end.

Definition all_returned (ws : list Worker) : Prop :=
  Forall (fun w => w = Returned) ws.

Section Steps.
Context {U : Unicode}.

(** [cap] is the capacity both channels are made with, [len(pkgs)]. *)
Variable cap : nat.

Inductive step : State -> State -> Prop :=
| main_sends s p ps :
    toSend s = p :: ps -> List.length (inq s) < cap ->
    step s (set_inq s ps (inq s ++ [p])%list (inClosed s))
| main_closes_in s :
    toSend s = [] -> inClosed s = false ->
    step s (set_inq s [] (inq s) true)
| worker_receives s ws1 ws2 p q :
    workers s = (ws1 ++ Receiving :: ws2)%list -> inq s = p :: q ->
    step s (set_workers (set_inq s (toSend s) q (inClosed s))
                        (ws1 ++ Probing p :: ws2)%list)
| worker_returns s ws1 ws2 :
    workers s = (ws1 ++ Receiving :: ws2)%list -> inq s = [] -> inClosed s = true ->
    step s (set_workers s (ws1 ++ Returned :: ws2)%list)
| worker_probes s ws1 ws2 p (e : Env) :
    workers s = (ws1 ++ Probing p :: ws2)%list ->
    step s (set_workers s (ws1 ++ afterProbe (probePackage e p) :: ws2)%list)
| worker_sends s ws1 ws2 info :
    workers s = (ws1 ++ Sending info :: ws2)%list -> List.length (outq s) < cap ->
    step s (set_workers (set_outq s (outq s ++ [info])%list (outClosed s))
                        (ws1 ++ Receiving :: ws2)%list)
| waiter_closes_out s :
    inClosed s = true -> all_returned (workers s) -> outClosed s = false ->
    step s (set_outq s (outq s) true)
| main_collects s a q :
    inClosed s = true -> outq s = a :: q -> drained s = false ->
    step s (set_apps (set_outq s q (outClosed s)) (apps s ++ [a])%list false)
| main_leaves_loop s :
    inClosed s = true -> outq s = [] -> outClosed s = true -> drained s = false ->
    step s (set_apps s (apps s) true).

Definition steps : State -> State -> Prop := clos_refl_trans_1n State step.

End Steps.

(** The state when the workers have been started (line 170). *)
Definition init (ncpu : Z) (pkgs : list string) : State :=
  {| toSend := pkgs; inq := []; inClosed := false;
     workers := repeat Receiving (Z.to_nat (numWorkers ncpu));
     outq := []; outClosed := false; apps := []; drained := false |}.

(** The identifiers the workers hold. *)
Definition heldBy (w : Worker) : list string :=
  match w with
  | Probing p => [p]
  | Sending info => [Package info]
  | _ => []
  end.

Definition held (ws : list Worker) : list string := flat_map heldBy ws.

(** Every identifier, wherever it is in the pipeline. *)
Definition inFlight (s : State) : list string :=
  (toSend s ++ inq s ++ held (workers s)
     ++ map Package (outq s) ++ map Package (apps s))%list.

(** What holds of every state a run reaches from [init] over [pkgs]. *)
Definition invariant (pkgs : list string) (s : State) : Prop :=
  Permutation pkgs (inFlight s)
  /\ (inClosed s = true -> toSend s = [])
  /\ (In Returned (workers s) -> inClosed s = true /\ inq s = [])
  /\ (outClosed s = true -> all_returned (workers s) /\ inClosed s = true)
  /\ (drained s = true -> outClosed s = true /\ outq s = [])
  /\ workers s <> [].

Definition workerWeight (w : Worker) : nat :=
  match w with
  | Receiving => 1
  | Probing _ => 4
  | Sending _ => 3
  | Returned => 0
  end.

(** A bound on the number of steps left. *)
Definition stepBound (s : State) : nat :=
  5 * List.length (toSend s) + 4 * List.length (inq s)
  + list_sum (map workerWeight (workers s))
  + List.length (outq s)
  + (if inClosed s then 0 else 1) + (if outClosed s then 0 else 1)
  + (if drained s then 0 else 1).

End Pool.

(** ** Concrete inputs used by the examples *)

Module Examples.

Definition quiet : CmdResult := {| stdout := ""; stderr := ""; failed := false |}.

(** An environment given by the outcome of the resolver, of the path
    listing and of the badging dump. *)
Definition envOf (resolve path : CmdResult) (badging : string * bool) : Env :=
  {| command := fun name args =>
       match args with
       | "resolve-activity" :: _ => resolve
       | "path" :: _ => path
       | _ => quiet
       end;
     runCmdBytes := fun _ _ => badging;
     fzf := fun _ => ("", true);
     NumCPU := 8 |}.

(** The resolver finds no launcher activity. *)
Definition noActivity : Env :=
  envOf {| stdout := "No activity found"; stderr := ""; failed := false |}
        quiet ("", true).

(** The resolver prints its answer and then exits with an error. *)
Definition failingResolver : Env :=
  envOf {| stdout := "priority=0 preferredOrder=0" ++ String nl "  name=com.example.app.MainActivity";
           stderr := "killed"; failed := true |}
        quiet ("", true).

(** A command that succeeds and writes to both streams. *)
Definition bothStreams : Env :=
  envOf {| stdout := "out"; stderr := "err"; failed := false |} quiet ("", true).

(** The package has an install path and a badging dump without a label. *)
Definition noLabel : Env :=
  envOf quiet
        {| stdout := "package:/data/app/com.example.app/base.apk"; stderr := ""; failed := false |}
        ("package: name='com.example.app' versionCode='1'", false).

Definition lineUnknownEntry : string :=
  "SomeApp" ++ String tab "com.example.app|UNKNOWN_ENTRY".

Definition lineUnknownMain : string :=
  "SomeApp" ++ String tab "com.example.app|UNKNOWN_MAIN".

(** Two packages with one label, as two arrival orders. *)
Definition cameraA : AppInfo :=
  {| Label := "Camera"; Package := "com.android.camera"; Main := "com.android.camera.Main" |}.

Definition cameraB : AppInfo :=
  {| Label := "Camera"; Package := "org.example.camera"; Main := "UNKNOWN_MAIN" |}.

Definition apple : AppInfo :=
  {| Label := "apple"; Package := "com.example.apple"; Main := "UNKNOWN_MAIN" |}.

Definition banana : AppInfo :=
  {| Label := "Banana"; Package := "com.example.banana"; Main := "UNKNOWN_MAIN" |}.

(** The pool after a whole run over one identifier that resolves to
    nothing, on a single processing unit. *)
Definition poolDone : Pool.State :=
  {| Pool.toSend := []; Pool.inq := []; Pool.inClosed := true;
     Pool.workers := [Pool.Returned; Pool.Returned; Pool.Returned; Pool.Returned];
     Pool.outq := []; Pool.outClosed := true;
     Pool.apps := [{| Label := "com.example.app"; Package := "com.example.app";
                      Main := "UNKNOWN_MAIN" |}];
     Pool.drained := true |}.

(** The same run at the moment the first worker has probed the identifier
    and holds its record. *)
Definition poolSending : Pool.State :=
  {| Pool.toSend := []; Pool.inq := []; Pool.inClosed := true;
     Pool.workers :=
       [Pool.Sending {| Label := "com.example.app"; Package := "com.example.app";
                        Main := "UNKNOWN_MAIN" |};
        Pool.Receiving; Pool.Receiving; Pool.Receiving];
     Pool.outq := []; Pool.outClosed := false;
     Pool.apps := []; Pool.drained := false |}.

Definition chrome : AppInfo :=
  {| Label := "Chrome"; Package := "com.android.chrome";
     Main := "com.android.chrome.Main" |}.

End Examples.

(** ** Vocabulary of the statements *)

(** An ASCII byte that is not white space. *)
Definition visible (c : ascii) : bool :=
  isASCIIbyte c && negb (asciiSpace c).

(** The record is what [probePackage] returned for its own identifier
    under some answers of the tools. *)
Definition probed {U : Unicode} (a : AppInfo) : Prop :=
  exists e : Env, probePackage e (Package a) = (Some a, false).

(** * Properties *)

(** ** Byte strings *)

Section StringFacts.

Lemma srev_app (a b : string) : srev (a ++ b) = srev b ++ srev a.
Proof.
  induction a as [|c a IH]; simpl.
  - induction (srev b) as [|x r IHr]; simpl; [reflexivity | now rewrite <- IHr].
  - rewrite IH. clear IH.
    induction (srev b) as [|x r IHr]; simpl; [reflexivity | now rewrite IHr].
Qed.

Lemma srev_involutive (s : string) : srev (srev s) = s.
Proof.
  induction s as [|c s IH]; simpl; [reflexivity|].
  rewrite srev_app, IH. reflexivity.
Qed.

Lemma HasPrefix_app (s p x : string) :
  HasPrefix s p = true -> HasPrefix (s ++ x) p = true.
Proof.
  revert s; induction p as [|a p IH]; intros s H; [reflexivity|].
  destruct s as [|b s]; simpl in *; [discriminate|].
  apply andb_true_iff in H as [H1 H2].
  rewrite H1; simpl. now apply IH.
Qed.

Lemma Contains_app (s m x : string) :
  Contains s m = true -> Contains (s ++ x) m = true.
Proof.
  unfold Contains.
  induction s as [|c s IH]; simpl.
  - destruct (HasPrefix "" m) eqn:E; [|discriminate].
    intros _. destruct m; [|discriminate]. now destruct x.
  - destruct (HasPrefix (String c s) m) eqn:E.
    + intros _. apply (HasPrefix_app _ _ x) in E. simpl in E. now rewrite E.
    + intros H. destruct (HasPrefix (String c (s ++ x)) m); [reflexivity|].
      destruct (Index s m); [|discriminate].
      specialize (IH eq_refl). destruct (Index (s ++ x) m); [reflexivity|discriminate].
Qed.

Lemma dropCR_contains (l m : string) :
  Contains (dropCR l) m = true -> Contains l m = true.
Proof.
  unfold dropCR. destruct (srev l) as [|c r] eqn:E; [easy|].
  destruct (Ascii.eqb c cr); [|easy].
  intros H. apply (Contains_app _ _ (String c "")) in H.
  replace l with (srev (srev l)) by apply srev_involutive.
  now rewrite E.
Qed.

Lemma takeWhile_incl {A} (f : A -> bool) (l : list A) x :
  In x (takeWhile f l) -> In x l.
Proof.
  induction l as [|y l IH]; simpl; [easy|].
  destruct (f y); simpl; [|easy]. intros [->|H]; auto.
Qed.

Lemma dropFinalEmpty_incl (ls : list string) x :
  In x (dropFinalEmpty ls) -> In x ls.
Proof.
  induction ls as [|l ls IH]; simpl; [easy|].
  destruct ls as [|l' ls'].
  - destruct (String.eqb l ""); simpl; tauto.
  - intros [->|H]; [now left|right; now apply IH].
Qed.

(** A scanned line that holds a marker comes from a line of the text that
    holds it. *)
Lemma scanLines_contains (s m l : string) :
  In l (scanLines s) -> Contains l m = true ->
  exists l', In l' (Split s (String nl "")) /\ Contains l' m = true.
Proof.
  unfold scanLines. intros Hin Hc.
  apply in_map_iff in Hin as (l0 & <- & Hin).
  exists l0. split.
  - now apply dropFinalEmpty_incl, (takeWhile_incl fitsBuffer).
  - now apply dropCR_contains.
Qed.

Lemma firstContaining_none (ls : list string) (m : string) :
  Forall (fun l => Contains l m = false) ls -> firstContaining ls m = "".
Proof.
  induction 1 as [|l ls Hl _ IH]; simpl; [reflexivity|]. now rewrite Hl.
Qed.

Lemma no_marker_scanned (s m : string) :
  Forall (fun l => Contains l m = false) (Split s (String nl "")) ->
  Forall (fun l => Contains l m = false) (scanLines s).
Proof.
  intros H. apply Forall_forall. intros l Hin.
  destruct (Contains l m) eqn:E; [|reflexivity].
  destruct (scanLines_contains s m l Hin E) as (l' & Hin' & Hc).
  rewrite Forall_forall in H. rewrite (H _ Hin') in Hc. discriminate.
Qed.

Lemma cut_single (a b : string) (c : ascii) :
  Contains a (String c "") = false ->
  cut (a ++ String c b) (String c "") = Some (a, b).
Proof.
  unfold Contains.
  induction a as [|x a IH]; simpl.
  - intros _. rewrite Ascii.eqb_refl. reflexivity.
  - destruct (Ascii.eqb c x) eqn:E; simpl; [discriminate|].
    intros H. destruct (Index a (String c "")) eqn:Ei; [discriminate|].
    unfold Contains in IH. now rewrite IH.
Qed.

Lemma cut_none (s sep : string) :
  cut s sep = None <-> Contains s sep = false.
Proof.
  unfold Contains.
  induction s as [|x s IH]; simpl.
  - destruct (HasPrefix "" sep); split; congruence.
  - destruct (HasPrefix (String x s) sep); [split; congruence|].
    destruct (cut s sep) as [[a b]|], (Index s sep); simpl;
      split; try congruence; intros H.
    + destruct IH as [_ IH]. discriminate IH. reflexivity.
    + destruct IH as [IH _]. discriminate IH. reflexivity.
Qed.

Lemma isASCII_app (a b : string) : isASCII (a ++ b) = isASCII a && isASCII b.
Proof.
  induction a as [|c a IH]; simpl; [reflexivity|].
  now rewrite IH, andb_assoc.
Qed.

Lemma isASCII_srev (s : string) : isASCII (srev s) = isASCII s.
Proof.
  induction s as [|c s IH]; simpl; [reflexivity|].
  rewrite isASCII_app, IH. simpl. rewrite andb_true_r. apply andb_comm.
Qed.

Lemma trimSpaceStop_ascii (U1 U2 : Unicode) (r : string) :
  isASCII r = true -> @trimSpaceStop U1 r = @trimSpaceStop U2 r.
Proof.
  induction r as [|c r IH]; simpl; [reflexivity|].
  intros H. apply andb_true_iff in H as [Hc Hr]. rewrite Hc. simpl.
  destruct (asciiSpace c); [now apply IH | reflexivity].
Qed.

(** On ASCII text [TrimSpace] does not consult the Unicode tables. *)
Lemma TrimSpace_ascii (U1 U2 : Unicode) (s : string) :
  isASCII s = true -> @TrimSpace U1 s = @TrimSpace U2 s.
Proof.
  unfold TrimSpace. induction s as [|c s IH]; [reflexivity|].
  intros H. pose proof H as H'. cbn [isASCII] in H.
  apply andb_true_iff in H as [Hc Hs].
  cbn [trimSpaceStart]. rewrite Hc. cbn [negb].
  destruct (asciiSpace c); [now apply IH|].
  apply trimSpaceStop_ascii. now rewrite isASCII_srev.
Qed.

(** Nor does [ToLower]. *)
Lemma ToLower_ascii (U1 U2 : Unicode) (s : string) :
  isASCII s = true -> @ToLower U1 s = @ToLower U2 s.
Proof. intros H. unfold ToLower. now rewrite H. Qed.

(** A slice of at most [maxInsertion] elements is sorted by insertion,
    whatever the long-slice sorter is. *)
Lemma Slice_short (P1 P2 : Pdqsort) {A : Type} (less : A -> A -> bool) (l : list A) :
  List.length l <= maxInsertion -> @Slice P1 A less l = @Slice P2 A less l.
Proof.
  intros H. unfold Slice. apply Nat.leb_le in H. now rewrite H.
Qed.

End StringFacts.

(** ** The attribute resolver *)

Section Resolver.
Context {U : Unicode}.

Lemma mainOf_no_marker (resOut : string) :
  Forall (fun l => Contains l "name=" = false) (Split resOut (String nl "")) ->
  mainOf resOut = "".
Proof.
  intros H. unfold mainOf, firstLineContaining.
  rewrite firstContaining_none by now apply no_marker_scanned.
  reflexivity.
Qed.

Lemma scanLabel_no_marker (ls : list string) :
  Forall (fun l => Contains l "application-label:" = false) ls ->
  scanLabel ls = "".
Proof.
  induction 1 as [|l ls Hl _ IH]; [reflexivity|].
  cbn [scanLabel]. now rewrite Hl.
Qed.

(** [probePackage] never returns an error or a nil record, and the record
    is about the identifier it was given. *)
Lemma probePackage_returns (e : Env) (pkg : string) :
  exists info, probePackage e pkg = (Some info, false) /\ Package info = pkg.
Proof. unfold probePackage. eexists. split; reflexivity. Qed.

(** C1, as the code has it: when no line of the resolver's output (the text
    [runCmd] returns, whether or not the command failed) holds the marker
    [name=], the record's entry point is exactly the sentinel
    [UNKNOWN_MAIN]. *)
Theorem probePackage_unknown_main (e : Env) (pkg : string) :
  Forall (fun l => Contains l "name=" = false)
         (Split (resOutOf e pkg) (String nl "")) ->
  exists info,
    probePackage e pkg = (Some info, false) /\ Main info = "UNKNOWN_MAIN".
Proof.
  intros H. unfold probePackage.
  rewrite (mainOf_no_marker _ H). cbn [String.eqb].
  eexists. split; reflexivity.
Qed.

(** C3: when no install path is found, or the badging tool fails, or it
    gives no output, or no line of its output holds the marker
    [application-label:], the record's label is the identifier. *)
Theorem probePackage_label_fallback (e : Env) (pkg : string) :
  let apkPath := apkPathOf (pathOutOf e pkg) in
  let badging := runCmdBytes e "aapt" ["dump"; "badging"; apkPath] in
  apkPath = "" \/ snd badging = true \/ fst badging = "" \/
  Forall (fun l => Contains l "application-label:" = false)
         (Split (fst badging) (String nl "")) ->
  exists info,
    probePackage e pkg = (Some info, false) /\ Label info = pkg.
Proof.
  intros apkPath badging H.
  assert (Hl : labelOf e apkPath = "").
  { unfold labelOf. destruct (String.eqb apkPath "") eqn:Ea; [reflexivity|].
    cbn [negb]. fold badging. destruct badging as [aaptOut err] eqn:Eb.
    cbn [fst snd] in H.
    destruct H as [H|[H|[H|H]]].
    - apply String.eqb_neq in Ea. contradiction.
    - subst err. reflexivity.
    - subst aaptOut. destruct err; reflexivity.
    - destruct (negb err && negb (String.eqb aaptOut "")); [|reflexivity].
      apply scanLabel_no_marker. now apply no_marker_scanned. }
  unfold probePackage. fold apkPath. rewrite Hl. cbn [String.eqb].
  eexists. split; reflexivity.
Qed.

(** C5, as the code has it: on failure [runCmd] returns standard output, a
    newline and standard error, trimmed; on success it returns standard
    output alone, trimmed, and standard error is dropped. *)
Theorem runCmd_output (e : Env) (name : string) (args : list string) :
  let r := command e name args in
  runCmd e name args =
    (if failed r
     then TrimSpace (stdout r ++ String nl "" ++ stderr r)
     else TrimSpace (stdout r),
     failed r).
Proof.
  intros r. unfold runCmd. fold r. destruct (failed r); reflexivity.
Qed.

End Resolver.

Lemma probePackage_unknown_main_witness :
  Forall (fun l => Contains l "name=" = false)
         (Split (@resOutOf asciiOnly Examples.noActivity "com.example.app")
                (String nl "")) /\
  exists info,
    @probePackage asciiOnly Examples.noActivity "com.example.app" = (Some info, false)
    /\ Main info = "UNKNOWN_MAIN".
Proof.
  assert (H : Forall (fun l => Contains l "name=" = false)
         (Split (@resOutOf asciiOnly Examples.noActivity "com.example.app")
                (String nl ""))).
  { vm_compute. repeat constructor. }
  split; [exact H|].
  exact (@probePackage_unknown_main asciiOnly Examples.noActivity "com.example.app" H).
Defined.

(** C1 as stated fails twice: the sentinel the code writes is
    [UNKNOWN_MAIN], and a lookup that fails after printing a [name=] line
    still gives that line's entry point. *)
Lemma probePackage_unknown_entry_counterexample :
  (option_map Main
     (fst (@probePackage asciiOnly Examples.noActivity "com.example.app"))
     = Some "UNKNOWN_MAIN"
   /\ "UNKNOWN_MAIN" <> "UNKNOWN_ENTRY")
  /\
  (failed (command Examples.failingResolver "pm" (resolveArgs "com.example.app")) = true
   /\ option_map Main
        (fst (@probePackage asciiOnly Examples.failingResolver "com.example.app"))
        = Some "com.example.app.MainActivity").
Proof. repeat split; try reflexivity. discriminate. Qed.

Lemma probePackage_label_fallback_witness :
  (let apkPath := @apkPathOf asciiOnly (@pathOutOf asciiOnly Examples.noLabel "com.example.app") in
   let badging := runCmdBytes Examples.noLabel "aapt" ["dump"; "badging"; apkPath] in
   apkPath = "" \/ snd badging = true \/ fst badging = "" \/
   Forall (fun l => Contains l "application-label:" = false)
          (Split (fst badging) (String nl ""))) /\
  exists info,
    @probePackage asciiOnly Examples.noLabel "com.example.app" = (Some info, false)
    /\ Label info = "com.example.app".
Proof.
  assert (H : let apkPath := @apkPathOf asciiOnly (@pathOutOf asciiOnly Examples.noLabel "com.example.app") in
   let badging := runCmdBytes Examples.noLabel "aapt" ["dump"; "badging"; apkPath] in
   apkPath = "" \/ snd badging = true \/ fst badging = "" \/
   Forall (fun l => Contains l "application-label:" = false)
          (Split (fst badging) (String nl ""))).
  { cbv zeta. right. right. right. vm_compute. repeat constructor. }
  split; [exact H|].
  exact (@probePackage_label_fallback asciiOnly Examples.noLabel "com.example.app" H).
Defined.

(** C5 as stated fails on success: standard error is not part of the
    result. *)
Lemma runCmd_success_counterexample :
  let r := command Examples.bothStreams "pm" (resolveArgs "x") in
  failed r = false
  /\ fst (@runCmd asciiOnly Examples.bothStreams "pm" (resolveArgs "x")) = "out"
  /\ @TrimSpace asciiOnly (stdout r ++ stderr r) = "outerr"
  /\ fst (@runCmd asciiOnly Examples.bothStreams "pm" (resolveArgs "x"))
     <> @TrimSpace asciiOnly (stdout r ++ stderr r).
Proof. cbv zeta. repeat split. vm_compute. discriminate. Qed.

(** ** Selection and dispatch *)

Section Dispatch.
Context {U : Unicode} {P : Pdqsort}.

Lemma SplitN_two (s sep : string) :
  sep <> "" ->
  SplitN s sep 2 =
    match cut s sep with
    | Some (a, b) => [a; b]
    | None => [s]
    end.
Proof.
  intros Hsep. unfold SplitN.
  destruct s as [|c s].
  - destruct sep; [congruence|reflexivity].
  - cbn [String.length]. replace (Nat.min 2 (S (String.length s) + 1) - 1) with 1 by lia.
    cbn [genSplitLoop]. destruct (cut (String c s) sep) as [[a b]|]; reflexivity.
Qed.

(** The two splits of lines 212-226, read off the first tab and the first
    pipe after it. *)
Lemma parseSelection_cut (chosen : string) :
  parseSelection chosen =
    match cut chosen (String tab "") with
    | None => inr "unexpected selection format"
    | Some (_, line) =>
        match cut line "|" with
        | None => inr "unexpected package|main format"
        | Some (pkg, intent) => inl (pkg, intent)
        end
    end.
Proof.
  unfold parseSelection.
  rewrite (SplitN_two chosen (String tab "")) by discriminate.
  destruct (cut chosen (String tab "")) as [[a line]|]; [|reflexivity].
  cbn [List.length Nat.ltb Nat.leb nth].
  rewrite (SplitN_two line "|") by discriminate.
  destruct (cut line "|") as [[pkg intent]|]; reflexivity.
Qed.

Lemma parseSelection_fields (label pkg intent : string) :
  Contains label (String tab "") = false ->
  Contains pkg "|" = false ->
  parseSelection (label ++ String tab "" ++ pkg ++ "|" ++ intent) = inl (pkg, intent).
Proof.
  intros Htab Hpipe. rewrite parseSelection_cut.
  change (String tab "" ++ pkg ++ "|" ++ intent)
    with (String tab (pkg ++ "|" ++ intent)).
  rewrite (cut_single _ _ tab Htab).
  change ("|" ++ intent) with (String "|"%char intent).
  now rewrite (cut_single _ _ "|"%char Hpipe).
Qed.

(** The two splits on the line without its newline, the text the trim of
    line 207 is meant to leave. *)
Lemma parseSelection_exchangeLine (a : AppInfo) :
  Contains (Label a) (String tab "") = false ->
  Contains (Label a) (String nl "") = false ->
  Contains (Package a) "|" = false ->
  parseSelection (exchangeLine a) = inl (Package a, Main a).
Proof.
  intros Htab _ Hpipe. now apply parseSelection_fields.
Qed.

(** From the line as written (with its newline) to the dispatch: the trim
    of line 207 has to give the exchange line back, which it does unless
    the label starts, or the entry point ends, with white space. *)
Lemma handleChosen_formatLine (a : AppInfo) :
  TrimSpace (formatLine a) = exchangeLine a ->
  Contains (Label a) (String tab "") = false ->
  Contains (Package a) "|" = false ->
  handleChosen (formatLine a)
  = {| events := [dispatch (Package a) (Main a)]; exitCode := 0 |}.
Proof.
  intros Ht Htab Hpipe. unfold handleChosen. rewrite Ht.
  assert (Hne : String.eqb (exchangeLine a) "" = false).
  { unfold exchangeLine. now destruct (Label a). }
  rewrite Hne. unfold exchangeLine.
  now rewrite parseSelection_fields.
Qed.

(** C4, as the code has it: the line whose entry point is the sentinel
    [UNKNOWN_MAIN] goes to the store page of the identifier, whether or
    not the selector's newline is still on it. *)
Theorem handleChosen_unknown_main :
  let store :=
    {| events := [Run "termux-open-url"
                    ["https://play.google.com/store/apps/details?id=com.example.app"]];
       exitCode := 0 |} in
  handleChosen Examples.lineUnknownMain = store
  /\ handleChosen (Examples.lineUnknownMain ++ String nl "") = store.
Proof. split; reflexivity. Qed.

Lemma handleChosen_exit (chosenBuf : string) :
  let chosen := TrimSpace chosenBuf in
  let o := handleChosen chosenBuf in
  (exitCode o = 0%Z \/ exitCode o = 1%Z)
  /\ (exitCode o = 0%Z <-> existsb isDispatch (events o) = true)
  /\ (exitCode o = 1%Z <->
        chosen = "" \/ Contains chosen (String tab "") = false \/
        exists label line, cut chosen (String tab "") = Some (label, line)
                           /\ Contains line "|" = false)
  /\ forall stdin, ~ In (RunSelector stdin) (events o).
Proof.
  intros chosen o. unfold o, handleChosen. fold chosen.
  destruct (String.eqb chosen "") eqn:Ec.
  { apply String.eqb_eq in Ec. cbn.
    split; [now right|]. split; [split; discriminate|].
    split; [split; auto|]. intros stdin []. }
  apply String.eqb_neq in Ec.
  rewrite parseSelection_cut.
  destruct (cut chosen (String tab "")) as [[label line]|] eqn:Et.
  - assert (Ht : Contains chosen (String tab "") = true).
    { destruct (Contains chosen (String tab "")) eqn:E; [reflexivity|].
      apply cut_none in E. congruence. }
    destruct (cut line "|") as [[pkg intent]|] eqn:Ep.
    + assert (Hp : Contains line "|" = true).
      { destruct (Contains line "|") eqn:E; [reflexivity|].
        apply cut_none in E. congruence. }
      cbn [events exitCode existsb].
      assert (Hd : isDispatch (dispatch pkg intent) = true).
      { unfold dispatch. destruct (String.eqb intent "UNKNOWN_MAIN"); reflexivity. }
      rewrite Hd.
      split; [now left|]. split; [split; reflexivity|].
      split; [split; [discriminate|]|].
      * intros [H|[H|(l1 & l2 & H1 & H2)]]; congruence.
      * intros stdin [H|[]]. unfold dispatch in H.
        destruct (String.eqb intent "UNKNOWN_MAIN"); discriminate.
    + apply cut_none in Ep. cbn.
      split; [now right|]. split; [split; discriminate|].
      split; [split; [|reflexivity]|].
      * intros _. right. right. exists label, line. auto.
      * intros stdin [H|[]]. discriminate.
  - apply cut_none in Et. cbn.
    split; [now right|]. split; [split; discriminate|].
    split; [split; auto|].
    intros stdin [H|[]]. discriminate.
Qed.

(** C8: [main] exits with 0 exactly when it reaches a dispatch, and with 1
    exactly when the identifier list is empty, the selector fails, its
    output is empty once trimmed, or the chosen line lacks the tab or the
    pipe after it; with an empty identifier list the selector is not
    run. *)
Theorem main_exit_status (e : Env) (collected : list AppInfo) :
  let o := main e collected in
  let sel := fzf e (fzfInputOf (sortApps collected)) in
  let chosen := TrimSpace (fst sel) in
  (exitCode o = 0%Z \/ exitCode o = 1%Z)
  /\ (exitCode o = 0%Z <-> existsb isDispatch (events o) = true)
  /\ (exitCode o = 1%Z <->
        getPackages e = [] \/ snd sel = true \/ chosen = "" \/
        Contains chosen (String tab "") = false \/
        exists label line, cut chosen (String tab "") = Some (label, line)
                           /\ Contains line "|" = false)
  /\ (getPackages e = [] -> forall stdin, ~ In (RunSelector stdin) (events o)).
Proof.
  intros o sel chosen. unfold o, main.
  destruct (getPackages e) as [|p ps] eqn:Eg.
  { cbn. repeat split; auto; try discriminate.
    intros _ stdin [H|[]]. discriminate. }
  cbn [List.length Nat.eqb]. unfold present. fold sel.
  destruct sel as [chosenBuf err] eqn:Es. cbn [fst snd] in *.
  destruct err.
  { cbn. repeat split; auto; try discriminate. }
  destruct (handleChosen_exit chosenBuf) as (H01 & H0 & H1 & _).
  fold chosen in H1. cbn [events exitCode existsb isDispatch orb].
  repeat split; auto; try discriminate; try apply H0.
  - intros H. right. right. now apply H1.
  - intros [H|[H|H]]; try discriminate. now apply H1.
Qed.

Lemma numWorkers_max_min (ncpu : Z) :
  numWorkers ncpu = Z.max 4 (Z.min 16 ncpu).
Proof.
  unfold numWorkers.
  destruct (Z.ltb_spec ncpu 4).
  - cbn. lia.
  - destruct (ncpu >? 16)%Z eqn:E; lia.
Qed.

(** C9: the number of workers is the number of processing units clamped
    to the interval from 4 to 16; 64 units give 16 workers and 1 unit
    gives 4; that many workers are started. *)
Theorem numWorkers_clamped (ncpu : Z) :
  numWorkers ncpu = Z.max 4 (Z.min 16 ncpu)
  /\ (4 <= numWorkers ncpu <= 16)%Z
  /\ numWorkers 64 = 16%Z
  /\ numWorkers 1 = 4%Z
  /\ forall pkgs, Z.of_nat (List.length (Pool.workers (Pool.init ncpu pkgs)))
                  = numWorkers ncpu.
Proof.
  pose proof (numWorkers_max_min ncpu) as H.
  repeat split; try (rewrite H; lia).
  intros pkgs. unfold Pool.init. cbn [Pool.workers].
  rewrite repeat_length, Z2Nat.id; [reflexivity | rewrite H; lia].
Qed.

End Dispatch.

(** A label of white space alone is trimmed away with the tab at line 207,
    and the line is then refused. *)
Lemma handleChosen_blank_label :
  @handleChosen asciiOnly
     (formatLine {| Label := " "; Package := "com.example.app"; Main := "UNKNOWN_MAIN" |})
  = {| events := [PrintErr "unexpected selection format"]; exitCode := 1 |}.
Proof. reflexivity. Qed.

(** C4 as stated fails: a line whose entry point is [UNKNOWN_ENTRY] is
    started as an activity of that name, not opened in the store. *)
Lemma handleChosen_unknown_entry_counterexample :
  @handleChosen asciiOnly Examples.lineUnknownEntry =
    {| events := [Run "am" ["start"; "--user"; "0"; "-n";
                            "com.example.app/UNKNOWN_ENTRY"]];
       exitCode := 0 |}
  /\ ~ In (Run "termux-open-url"
             ["https://play.google.com/store/apps/details?id=com.example.app"])
          (events (@handleChosen asciiOnly Examples.lineUnknownEntry)).
Proof.
  split; [reflexivity|]. intros [H|[]]. discriminate.
Qed.

(** ** The aggregator's sort *)

Section StringOrder.

Lemma compare_lt_trans (a b c : string) :
  String.compare a b = Lt -> String.compare b c = Lt -> String.compare a c = Lt.
Proof.
  revert b c. induction a as [|x a IH]; intros [|y b] [|z c]; simpl; try easy.
  unfold Ascii.compare.
  destruct (N.compare_spec (N_of_ascii x) (N_of_ascii y)) as [E1|E1|E1];
    destruct (N.compare_spec (N_of_ascii y) (N_of_ascii z)) as [E2|E2|E2];
    destruct (N.compare_spec (N_of_ascii x) (N_of_ascii z)) as [E3|E3|E3];
    try easy; try lia.
  apply IH.
Qed.

Lemma leb_trans (a b c : string) :
  String.leb a b = true -> String.leb b c = true -> String.leb a c = true.
Proof.
  unfold String.leb.
  destruct (String.compare a b) eqn:E1; try discriminate;
    destruct (String.compare b c) eqn:E2; try discriminate; intros _ _.
  - apply String.compare_eq_iff in E1, E2. subst.
    destruct (String.leb_total c c) as [H|H]; exact H.
  - apply String.compare_eq_iff in E1. subst. now rewrite E2.
  - apply String.compare_eq_iff in E2. subst. now rewrite E1.
  - now rewrite (compare_lt_trans _ _ _ E1 E2).
Qed.

Lemma ltb_false_leb (a b : string) :
  String.ltb b a = false <-> String.leb a b = true.
Proof.
  unfold String.ltb, String.leb. rewrite (String.compare_antisym a b).
  destruct (String.compare b a); simpl; split; congruence.
Qed.

End StringOrder.

Section SortFacts.
Context {A : Type} (less : A -> A -> bool).

Lemma sink_perm (x : A) (rp : list A) : Permutation (x :: rp) (sink less x rp).
Proof.
  induction rp as [|y rp IH]; simpl; [reflexivity|].
  destruct (less x y); [|reflexivity].
  rewrite perm_swap. now constructor.
Qed.

Lemma insertionLoop_perm (rp rest : list A) :
  Permutation (List.rev rp ++ rest)%list (insertionLoop less rp rest).
Proof.
  revert rp. induction rest as [|x rest IH]; intros rp; simpl.
  - now rewrite app_nil_r.
  - rewrite <- IH, <- (sink_perm x rp). simpl.
    rewrite <- app_assoc. reflexivity.
Qed.

Lemma insertionSort_perm (l : list A) :
  Permutation l (insertionSortLessFunc less l).
Proof. exact (insertionLoop_perm [] l). Qed.

Hypothesis SW : StrictWeak less.

Lemma sink_sorted (x : A) (rp : list A) :
  StronglySorted (desc less) rp -> StronglySorted (desc less) (sink less x rp).
Proof.
  induction 1 as [|y rp Hs IH Hy]; simpl.
  - repeat constructor.
  - destruct (less x y) eqn:E.
    + constructor; [exact IH|].
      rewrite <- (sink_perm x rp). constructor; [|exact Hy].
      exact (less_asym less SW _ _ E).
    + constructor; [now constructor|].
      constructor; [exact E|].
      revert Hy. apply Forall_impl. intros z Hz.
      exact (less_negtrans less SW _ _ _ E Hz).
Qed.

Lemma StronglySorted_snoc (R : A -> A -> Prop) (l : list A) (x : A) :
  StronglySorted R l -> Forall (fun y => R y x) l ->
  StronglySorted R (l ++ [x])%list.
Proof.
  induction 1 as [|y l Hs IH Hy]; intros Hx; simpl.
  - repeat constructor.
  - inversion Hx; subst. constructor; [now apply IH|].
    apply Forall_app. split; [exact Hy|]. now repeat constructor.
Qed.

Lemma desc_rev (rp : list A) :
  StronglySorted (desc less) rp -> StronglySorted (asc less) (List.rev rp).
Proof.
  induction 1 as [|y rp Hs IH Hy]; simpl; [constructor|].
  apply StronglySorted_snoc; [exact IH|].
  apply Forall_rev. exact Hy.
Qed.

Lemma insertionLoop_sorted (rp rest : list A) :
  StronglySorted (desc less) rp -> StronglySorted (asc less) (insertionLoop less rp rest).
Proof.
  revert rp. induction rest as [|x rest IH]; intros rp H; simpl.
  - now apply desc_rev.
  - now apply IH, sink_sorted.
Qed.

Lemma insertionSort_sorted (l : list A) :
  StronglySorted (asc less) (insertionSortLessFunc less l).
Proof. apply insertionLoop_sorted. constructor. Qed.

Lemma asc_trans : Transitive (asc less).
Proof.
  intros a b c Hab Hbc. unfold asc in *.
  exact (less_negtrans less SW _ _ _ Hbc Hab).
Qed.

Context {P : Pdqsort} {C : SortContract P}.

Lemma Slice_perm_sorted (l : list A) :
  Permutation l (Slice less l) /\ StronglySorted (asc less) (Slice less l).
Proof.
  unfold Slice. destruct (List.length l <=? maxInsertion)%nat.
  - split; [apply insertionSort_perm | apply insertionSort_sorted].
  - split; [apply pdqsort_perm|].
    apply Sorted_StronglySorted; [exact asc_trans|].
    now apply pdqsort_sorted.
Qed.

End SortFacts.

Lemma insertionOnly_contract : SortContract insertionOnly.
Proof.
  split; intros A less l.
  - apply insertionSort_perm.
  - intros SW. apply StronglySorted_Sorted. now apply insertionSort_sorted.
Qed.

Section Aggregator.
Context {U : Unicode} {P : Pdqsort} {C : SortContract P}.

Lemma lessLabel_strictWeak : StrictWeak lessLabel.
Proof.
  split; unfold lessLabel.
  - intros a b H. unfold String.ltb in *.
    rewrite String.compare_antisym.
    destruct (String.compare (ToLower (Label a)) (ToLower (Label b)));
      try discriminate; reflexivity.
  - intros a b c H1 H2.
    apply ltb_false_leb in H1, H2. apply ltb_false_leb.
    exact (leb_trans _ _ _ H2 H1).
Qed.

Lemma asc_lessLabel (a b : AppInfo) :
  asc lessLabel a b <-> String.leb (ToLower (Label a)) (ToLower (Label b)) = true.
Proof. unfold asc, lessLabel. apply ltb_false_leb. Qed.

Lemma StronglySorted_nth {A} (R : A -> A -> Prop) (l : list A) :
  StronglySorted R l ->
  forall i j a b, i < j -> nth_error l i = Some a -> nth_error l j = Some b -> R a b.
Proof.
  induction 1 as [|x l Hs IH Hx]; intros i j a b Hij Hi Hj.
  - destruct i; discriminate.
  - destruct j as [|j]; [lia|]. cbn in Hj.
    destruct i as [|i]; cbn in Hi.
    + injection Hi as <-. rewrite Forall_forall in Hx.
      apply Hx. eapply nth_error_In; eassumption.
    + apply (IH i j); [lia|assumption..].
Qed.

Lemma sortApps_perm_sorted (apps : list AppInfo) :
  Permutation apps (sortApps apps)
  /\ StronglySorted (asc lessLabel) (sortApps apps).
Proof. exact (Slice_perm_sorted lessLabel lessLabel_strictWeak apps). Qed.

(** C6: the sorted slice holds the records it was given, every record's
    lowercased label is at most that of the record after it, and a record
    labelled [apple] stands before one labelled [Banana]. *)
Theorem sortApps_sorted (apps : list AppInfo) :
  let out := sortApps apps in
  Permutation apps out
  /\ (forall i a b,
        nth_error out i = Some a -> nth_error out (S i) = Some b ->
        String.leb (ToLower (Label a)) (ToLower (Label b)) = true)
  /\ (forall i j a b,
        nth_error out i = Some a -> nth_error out j = Some b ->
        Label a = "apple" -> Label b = "Banana" -> i < j).
Proof.
  intros out. destruct (sortApps_perm_sorted apps) as [Hp Hs]. fold out in Hp, Hs.
  split; [exact Hp|]. split.
  - intros i a b Ha Hb. apply asc_lessLabel.
    apply (StronglySorted_nth _ _ Hs i (S i)); auto.
  - intros i j a b Ha Hb La Lb.
    destruct (Nat.lt_trichotomy i j) as [H|[H|H]]; [exact H|exfalso..].
    + subst j. rewrite Ha in Hb. injection Hb as <-. rewrite La in Lb. discriminate.
    + pose proof (StronglySorted_nth _ _ Hs j i b a H Hb Ha) as Hba.
      unfold asc, lessLabel in Hba. rewrite La, Lb in Hba. discriminate.
Qed.

Lemma sorted_keys_unique (k1 k2 : list string) :
  StronglySorted (fun a b => String.leb a b = true) k1 ->
  StronglySorted (fun a b => String.leb a b = true) k2 ->
  Permutation k1 k2 -> k1 = k2.
Proof.
  intros H1. revert k2. induction H1 as [|a k1 Hs IH Ha]; intros k2 H2 Hp.
  - apply Permutation_nil in Hp. now subst.
  - destruct H2 as [|b k2 Hs2 Hb].
    + apply Permutation_sym, Permutation_nil in Hp. discriminate.
    + assert (Hab : a = b).
      { rewrite Forall_forall in Ha, Hb.
        assert (Ia : In a (b :: k2)) by (eapply Permutation_in; [exact Hp|now left]).
        assert (Ib : In b (a :: k1))
          by (eapply Permutation_in; [apply Permutation_sym, Hp|now left]).
        destruct Ia as [->|Ia]; [reflexivity|].
        destruct Ib as [->|Ib]; [reflexivity|].
        apply String.leb_antisym; auto. }
      subst b. f_equal. apply IH; [exact Hs2|].
      eapply Permutation_cons_inv; exact Hp.
Qed.

Lemma StronglySorted_map {A B} (f : A -> B) (R : A -> A -> Prop)
      (R' : B -> B -> Prop) (l : list A) :
  (forall a b, R a b -> R' (f a) (f b)) ->
  StronglySorted R l -> StronglySorted R' (map f l).
Proof.
  intros HR. induction 1 as [|x l Hs IH Hx]; simpl; constructor; [exact IH|].
  apply Forall_map. revert Hx. apply Forall_impl. intros b. apply HR.
Qed.

Lemma same_keys_same_list {A B} (f : A -> B) (l1 l2 : list A) :
  Permutation l1 l2 -> map f l1 = map f l2 -> NoDup (map f l1) -> l1 = l2.
Proof.
  revert l2. induction l1 as [|a l1 IH]; intros [|b l2] Hp Hm Hn;
    try discriminate; [reflexivity|].
  cbn in Hm. injection Hm as Hab Hm.
  inversion Hn as [|? ? Hna Hn']; subst.
  assert (a = b).
  { assert (Ib : In b (a :: l1))
      by (eapply Permutation_in; [apply Permutation_sym, Hp|now left]).
    destruct Ib as [->|Ib]; [reflexivity|].
    exfalso. apply Hna. rewrite Hab. now apply in_map. }
  subst b. f_equal. apply IH; auto.
  eapply Permutation_cons_inv; exact Hp.
Qed.

(** C7, as the code has it: two arrival orders of the same records are
    sorted into the same sequence of lowercased labels and into the same
    records; the two sorted slices are equal when no two records share a
    lowercased label. *)
Theorem sortApps_arrival_order (l1 l2 : list AppInfo) :
  Permutation l1 l2 ->
  let key := fun a => ToLower (Label a) in
  map key (sortApps l1) = map key (sortApps l2)
  /\ Permutation (sortApps l1) (sortApps l2)
  /\ (NoDup (map key l1) -> sortApps l1 = sortApps l2).
Proof.
  intros Hp key.
  destruct (sortApps_perm_sorted l1) as [Hp1 Hs1].
  destruct (sortApps_perm_sorted l2) as [Hp2 Hs2].
  assert (Hpp : Permutation (sortApps l1) (sortApps l2)).
  { rewrite <- Hp1, <- Hp2. exact Hp. }
  assert (Hk : map key (sortApps l1) = map key (sortApps l2)).
  { apply sorted_keys_unique.
    - revert Hs1. apply StronglySorted_map. intros a b. apply asc_lessLabel.
    - revert Hs2. apply StronglySorted_map. intros a b. apply asc_lessLabel.
    - now apply Permutation_map. }
  split; [exact Hk|]. split; [exact Hpp|].
  intros Hn. apply (same_keys_same_list key); auto.
  eapply Permutation_NoDup; [|exact Hn]. now apply Permutation_map.
Qed.

End Aggregator.

Lemma sortApps_sorted_witness :
  SortContract insertionOnly /\
  @sortApps asciiOnly insertionOnly [Examples.banana; Examples.chrome; Examples.apple]
  = [Examples.apple; Examples.banana; Examples.chrome] /\
  (let out := @sortApps asciiOnly insertionOnly
                [Examples.banana; Examples.chrome; Examples.apple] in
   Permutation [Examples.banana; Examples.chrome; Examples.apple] out
   /\ (forall i a b,
         nth_error out i = Some a -> nth_error out (S i) = Some b ->
         String.leb (@ToLower asciiOnly (Label a)) (@ToLower asciiOnly (Label b)) = true)
   /\ (forall i j a b,
         nth_error out i = Some a -> nth_error out j = Some b ->
         Label a = "apple" -> Label b = "Banana" -> i < j)).
Proof.
  split; [exact insertionOnly_contract|]. split; [reflexivity|].
  exact (@sortApps_sorted asciiOnly insertionOnly insertionOnly_contract
           [Examples.banana; Examples.chrome; Examples.apple]).
Defined.

Lemma sortApps_arrival_order_witness :
  SortContract insertionOnly /\
  Permutation [Examples.banana; Examples.apple] [Examples.apple; Examples.banana] /\
  (let key := fun a => @ToLower asciiOnly (Label a) in
   map key (@sortApps asciiOnly insertionOnly [Examples.banana; Examples.apple])
   = map key (@sortApps asciiOnly insertionOnly [Examples.apple; Examples.banana])
   /\ Permutation (@sortApps asciiOnly insertionOnly [Examples.banana; Examples.apple])
                  (@sortApps asciiOnly insertionOnly [Examples.apple; Examples.banana])
   /\ (NoDup (map key [Examples.banana; Examples.apple]) ->
       @sortApps asciiOnly insertionOnly [Examples.banana; Examples.apple]
       = @sortApps asciiOnly insertionOnly [Examples.apple; Examples.banana])).
Proof.
  split; [exact insertionOnly_contract|].
  assert (H : Permutation [Examples.banana; Examples.apple]
                          [Examples.apple; Examples.banana]) by apply perm_swap.
  split; [exact H|].
  exact (@sortApps_arrival_order asciiOnly insertionOnly insertionOnly_contract _ _ H).
Defined.

(** C7 as stated fails: two records with one label leave the sort in the
    order they arrived in. *)
Lemma sortApps_arrival_order_counterexample :
  Permutation [Examples.cameraA; Examples.cameraB] [Examples.cameraB; Examples.cameraA]
  /\ @sortApps asciiOnly insertionOnly [Examples.cameraA; Examples.cameraB]
     = [Examples.cameraA; Examples.cameraB]
  /\ @sortApps asciiOnly insertionOnly [Examples.cameraB; Examples.cameraA]
     = [Examples.cameraB; Examples.cameraA]
  /\ @sortApps asciiOnly insertionOnly [Examples.cameraA; Examples.cameraB]
     <> @sortApps asciiOnly insertionOnly [Examples.cameraB; Examples.cameraA].
Proof.
  split; [apply perm_swap|]. split; [reflexivity|]. split; [reflexivity|].
  vm_compute. discriminate.
Qed.

(** ** The worker pool *)

Section PoolFacts.
Context {U : Unicode}.
Import Pool.

Lemma held_mid (ws1 ws2 : list Worker) (w : Worker) :
  held (ws1 ++ w :: ws2) = (held ws1 ++ heldBy w ++ held ws2)%list.
Proof. unfold held. rewrite flat_map_app. reflexivity. Qed.

Lemma weight_mid (ws1 ws2 : list Worker) (w : Worker) :
  list_sum (map workerWeight (ws1 ++ w :: ws2))
  = list_sum (map workerWeight ws1) + workerWeight w + list_sum (map workerWeight ws2).
Proof. rewrite map_app, list_sum_app. simpl. lia. Qed.

Lemma all_returned_mid (ws1 ws2 : list Worker) (w : Worker) :
  all_returned (ws1 ++ w :: ws2) -> w = Returned.
Proof.
  unfold all_returned. intros H. apply Forall_app in H as [_ H].
  now inversion H.
Qed.

Lemma in_mid_change (ws1 ws2 : list Worker) (w w' : Worker) :
  w' <> Returned -> In Returned (ws1 ++ w' :: ws2) -> In Returned (ws1 ++ w :: ws2).
Proof.
  intros Hw H. apply in_app_iff in H as [H|[H|H]].
  - apply in_app_iff. now left.
  - congruence.
  - apply in_app_iff. right. now right.
Qed.

Lemma held_all_returned (ws : list Worker) : all_returned ws -> held ws = [].
Proof.
  induction 1 as [|w ws Hw _ IH]; [reflexivity|].
  subst w. exact IH.
Qed.

Lemma afterProbe_probePackage (e : Env) (p : string) :
  exists info, afterProbe (probePackage e p) = Sending info /\ Package info = p.
Proof.
  destruct (probePackage_returns e p) as (info & -> & Hp).
  exists info. now split.
Qed.

Lemma perm_by_count (l1 l2 l : list string) :
  Permutation l l1 ->
  (forall x, count_occ string_dec l1 x = count_occ string_dec l2 x) ->
  Permutation l l2.
Proof.
  intros H Hc. rewrite H. now apply (Permutation_count_occ string_dec).
Qed.

End PoolFacts.

Section PoolRuns.
Context {U : Unicode}.
Import Pool.
Variable pkgs : list string.

Ltac count_flight :=
  let x := fresh "x" in
  intros x; unfold inFlight;
  cbn [toSend inq workers outq apps set_workers set_inq set_outq set_apps];
  repeat match goal with H : _ = _ |- _ => rewrite H end;
  repeat rewrite ?held_mid, ?map_app, ?count_occ_app; cbn [heldBy map count_occ];
  repeat match goal with |- context [string_dec ?a ?b] => destruct (string_dec a b) end;
  lia.

Ltac not_all_returned :=
  match goal with
  | H : workers _ = _, A : all_returned (workers _) |- _ =>
      rewrite H in A; apply all_returned_mid in A; discriminate
  end.

Lemma step_invariant (s s' : State) :
  step (List.length pkgs) s s' -> invariant pkgs s -> invariant pkgs s'.
Proof.
  intros Hstep (Hperm & Hclosed & Hret & Hout & Hdr & Hne).
  destruct Hstep as [s p ps Hs Hcap | s Hs Hc | s ws1 ws2 p q Hw Hq
                    | s ws1 ws2 Hw Hq Hc | s ws1 ws2 p e Hw
                    | s ws1 ws2 info Hw Hcap | s Hc Hall Ho
                    | s a q Hc Hq Hd | s Hc Hq Ho Hd].
  all: unfold invariant;
    cbn [toSend inq inClosed workers outq outClosed apps drained
         set_workers set_inq set_outq set_apps].
  all: try (destruct (afterProbe_probePackage e p) as (info & Hi & Hp); rewrite Hi; subst p).
  all: split; [eapply perm_by_count; [exact Hperm|]; count_flight |].
  all: repeat split; intros; try assumption; try discriminate.
  all: repeat match goal with
       | H : ?a -> _, H' : ?a |- _ => specialize (H H')
       | H : true = true -> _ |- _ => specialize (H eq_refl)
       | H : _ /\ _ |- _ => destruct H
       | Hw : workers ?s = (?ws1 ++ ?old :: ?ws2)%list,
         H : In Returned (?ws1 ++ ?w :: ?ws2)%list |- _ =>
           apply (in_mid_change ws1 ws2 old w) in H;
           [rewrite <- Hw in H | discriminate]
       end.
  all: try congruence; try not_all_returned.
  all: try (now destruct ws1).
Qed.

Lemma step_decreases (s s' : State) :
  step (List.length pkgs) s s' -> stepBound s' < stepBound s.
Proof.
  intros Hstep.
  destruct Hstep as [s p ps Hs Hcap | s Hs Hc | s ws1 ws2 p q Hw Hq
                    | s ws1 ws2 Hw Hq Hc | s ws1 ws2 p e Hw
                    | s ws1 ws2 info Hw Hcap | s Hc Hall Ho
                    | s a q Hc Hq Hd | s Hc Hq Ho Hd].
  all: try (destruct (afterProbe_probePackage e p) as (info & Hi & Hp); rewrite Hi).
  all: unfold stepBound;
    cbn [toSend inq inClosed workers outq outClosed apps drained
         set_workers set_inq set_outq set_apps];
    repeat match goal with H : _ = _ |- _ => rewrite H end;
    rewrite ?weight_mid, ?length_app; cbn [List.length workerWeight];
    repeat match goal with |- context [if ?b then _ else _] => destruct b end;
    lia.
Qed.

Lemma steps_invariant (s s' : State) :
  steps (List.length pkgs) s s' -> invariant pkgs s -> invariant pkgs s'.
Proof.
  induction 1 as [|s s1 s2 H1 _ IH]; [auto|].
  intros H. apply IH. eapply step_invariant; eassumption.
Qed.

Lemma init_invariant (ncpu : Z) : invariant pkgs (init ncpu pkgs).
Proof.
  assert (Hn : exists n, Z.to_nat (numWorkers ncpu) = S n).
  { pose proof (numWorkers_max_min ncpu) as H.
    exists (Nat.pred (Z.to_nat (numWorkers ncpu))). lia. }
  destruct Hn as [n Hn].
  unfold invariant, init, inFlight. cbn [toSend inq inClosed workers outq outClosed apps drained].
  assert (Hh : forall k, held (repeat Receiving k) = []) by (induction k; auto).
  rewrite Hh. cbn. rewrite app_nil_r.
  split; [reflexivity|].
  split; [discriminate|].
  split; [intros H; apply repeat_spec in H; discriminate|].
  split; [discriminate|].
  split; [discriminate|].
  rewrite Hn. discriminate.
Qed.

(** When the collecting loop has ended every identifier has its record. *)
Lemma drained_collected (s : State) :
  invariant pkgs s -> drained s = true ->
  Permutation pkgs (map Package (apps s)).
Proof.
  intros (Hperm & Hclosed & Hret & Hout & Hdr & Hne) Hd.
  destruct (Hdr Hd) as [Ho Hq]. destruct (Hout Ho) as [Hall Hc].
  assert (Hin : In Returned (workers s)).
  { destruct (workers s) as [|w ws]; [congruence|].
    inversion Hall; subst. now left. }
  destruct (Hret Hin) as [_ Hi].
  unfold inFlight in Hperm.
  rewrite (Hclosed Hc), Hi, Hq, (held_all_returned _ Hall) in Hperm.
  exact Hperm.
Qed.

Lemma not_all_returned_split (ws : list Worker) :
  all_returned ws \/
  exists ws1 w ws2, ws = (ws1 ++ w :: ws2)%list /\ w <> Returned.
Proof.
  induction ws as [|w ws [IH|(ws1 & w' & ws2 & -> & Hw)]].
  - left. constructor.
  - destruct w as [|p|info|].
    + right. exists [], Receiving, ws. split; [reflexivity|discriminate].
    + right. exists [], (Probing p), ws. split; [reflexivity|discriminate].
    + right. exists [], (Sending info), ws. split; [reflexivity|discriminate].
    + left. now constructor.
  - right. exists (w :: ws1), w', ws2. now split.
Qed.

(** No deadlock: until the collecting loop has ended some goroutine can
    move; in particular no send finds its channel full. *)
Lemma step_progress (s : State) :
  invariant pkgs s -> drained s = false ->
  exists s', step (List.length pkgs) s s'.
Proof.
  intros (Hperm & Hclosed & Hret & Hout & Hdr & Hne) Hd.
  apply Permutation_length in Hperm. unfold inFlight in Hperm.
  rewrite !length_app in Hperm.
  destruct (toSend s) as [|p ps] eqn:Hs.
  2:{ eexists. eapply main_sends; [exact Hs|]. cbn in Hperm. lia. }
  destruct (inClosed s) eqn:Hc.
  2:{ eexists. now apply main_closes_in. }
  destruct (outq s) as [|a q] eqn:Hq.
  2:{ eexists. eapply main_collects; eassumption. }
  destruct (outClosed s) eqn:Ho.
  1:{ eexists. now apply main_leaves_loop. }
  destruct (not_all_returned_split (workers s)) as [Hall|(ws1 & w & ws2 & Hw & Hnr)].
  1:{ eexists. now apply waiter_closes_out. }
  destruct w as [|p|info|]; [| | |congruence].
  - destruct (inq s) as [|p q] eqn:Hi.
    + eexists. eapply worker_returns; eassumption.
    + eexists. eapply worker_receives; eassumption.
  - eexists. eapply (worker_probes _ s ws1 ws2 p Examples.noActivity). exact Hw.
  - eexists. eapply worker_sends; [exact Hw|].
    rewrite Hq. rewrite Hw, held_mid, !length_app in Hperm. cbn in Hperm |- *. lia.
Qed.

(** Every run can be carried on until the collecting loop ends. *)
Lemma run_completes (s : State) :
  invariant pkgs s ->
  exists s', steps (List.length pkgs) s s' /\ drained s' = true.
Proof.
  remember (stepBound s) as n eqn:Hn. revert s Hn.
  induction n as [n IH] using lt_wf_ind. intros s Hn Hinv.
  destruct (drained s) eqn:Hd.
  - exists s. split; [constructor|exact Hd].
  - destruct (step_progress s Hinv Hd) as [s1 H1].
    destruct (IH (stepBound s1)) with (s := s1) as (s' & Hs' & Hd');
      [subst n; now apply step_decreases | reflexivity
      | eapply step_invariant; eassumption |].
    exists s'. split; [|exact Hd'].
    econstructor; eassumption.
Qed.

(** C2: in every run of the pool over [pkgs], once the collecting loop has
    ended the slice holds exactly one record per identifier supplied,
    whatever the tools answered to each probe; every run can be carried on
    to that point, and no run goes on for ever. *)
Theorem pool_one_record_per_identifier (ncpu : Z) (s : State) :
  steps (List.length pkgs) (init ncpu pkgs) s ->
  (drained s = true ->
     Permutation pkgs (map Package (apps s))
     /\ List.length (apps s) = List.length pkgs)
  /\ (exists s', steps (List.length pkgs) s s' /\ drained s' = true)
  /\ (forall s', step (List.length pkgs) s s' -> stepBound s' < stepBound s).
Proof.
  intros Hrun.
  assert (Hinv : invariant pkgs s)
    by (eapply steps_invariant; [exact Hrun | apply init_invariant]).
  split; [|split].
  - intros Hd. pose proof (drained_collected s Hinv Hd) as Hp.
    split; [exact Hp|].
    apply Permutation_length in Hp. now rewrite length_map in Hp.
  - now apply run_completes.
  - intros s'. apply step_decreases.
Qed.

End PoolRuns.


Lemma pool_one_record_per_identifier_witness :
  @Pool.steps asciiOnly 1 (Pool.init 1 ["com.example.app"]) Examples.poolDone /\
  ((Pool.drained Examples.poolDone = true ->
      Permutation ["com.example.app"] (map Package (Pool.apps Examples.poolDone))
      /\ List.length (Pool.apps Examples.poolDone) = 1)
   /\ (exists s', @Pool.steps asciiOnly 1 Examples.poolDone s' /\ Pool.drained s' = true)
   /\ (forall s', @Pool.step asciiOnly 1 Examples.poolDone s' ->
                  Pool.stepBound s' < Pool.stepBound Examples.poolDone)).
Proof.
  assert (H : @Pool.steps asciiOnly (List.length ["com.example.app"])
                (Pool.init 1 ["com.example.app"]) Examples.poolDone).
  { unfold Pool.steps. 
    let s0 := eval cbv in (Pool.init 1 ["com.example.app"]) in
    change (Pool.init 1 ["com.example.app"]) with s0.
    cbn [List.length].
    eapply Relation_Operators.rt1n_trans; [eapply Pool.main_sends; [reflexivity | cbn; lia] | cbn].
    eapply Relation_Operators.rt1n_trans; [eapply Pool.main_closes_in; reflexivity | cbn].
    eapply Relation_Operators.rt1n_trans;
      [eapply (Pool.worker_receives _ _ [] _ "com.example.app" []); reflexivity | cbn].
    eapply Relation_Operators.rt1n_trans;
      [eapply (Pool.worker_probes _ _ [] _ "com.example.app" Examples.noActivity);
       reflexivity | cbn].
    eapply Relation_Operators.rt1n_trans;
      [eapply (Pool.worker_sends _ _ [] _ _); [reflexivity | cbn; lia] | cbn].
    eapply Relation_Operators.rt1n_trans; [eapply (Pool.worker_returns _ _ [] _); reflexivity | cbn].
    eapply Relation_Operators.rt1n_trans;
      [eapply (Pool.worker_returns _ _ [Pool.Returned] _); reflexivity | cbn].
    eapply Relation_Operators.rt1n_trans;
      [eapply (Pool.worker_returns _ _ [Pool.Returned; Pool.Returned] _); reflexivity | cbn].
    eapply Relation_Operators.rt1n_trans;
      [eapply (Pool.worker_returns _ _ [Pool.Returned; Pool.Returned; Pool.Returned] _);
       reflexivity | cbn].
    eapply Relation_Operators.rt1n_trans;
      [eapply Pool.waiter_closes_out; [reflexivity | repeat constructor | reflexivity] | cbn].
    eapply Relation_Operators.rt1n_trans; [eapply Pool.main_collects; reflexivity | cbn].
    eapply Relation_Operators.rt1n_trans; [eapply Pool.main_leaves_loop; reflexivity | cbn].
    apply Relation_Operators.rt1n_refl. }
  split; [exact H|].
  exact (@pool_one_record_per_identifier asciiOnly ["com.example.app"] 1
           Examples.poolDone H).
Defined.

(** * Further properties of the code *)

(** ** Enumerating, scanning and parsing *)

Section MoreStrings.

Lemma append_nil_r (s : string) : s ++ "" = s.
Proof. induction s as [|c s IH]; simpl; [reflexivity | now rewrite IH]. Qed.

Lemma append_assoc (a b c : string) : (a ++ b) ++ c = a ++ b ++ c.
Proof. induction a as [|x a IH]; simpl; [reflexivity | now rewrite IH]. Qed.

Lemma length_append (a b : string) :
  String.length (a ++ b) = String.length a + String.length b.
Proof. induction a as [|x a IH]; simpl; [reflexivity | now rewrite IH]. Qed.

(** What a successful cut at a one-byte separator says of the text. *)
Lemma cut_single_inv (s a b : string) (c : ascii) :
  cut s (String c "") = Some (a, b) ->
  s = a ++ String c b /\ Contains a (String c "") = false.
Proof.
  revert a. induction s as [|x s IH]; intros a; simpl; [discriminate|].
  destruct (Ascii.eqb c x) eqn:E; simpl.
  - apply Ascii.eqb_eq in E. subst x.
    intros H. injection H as <- <-. split; reflexivity.
  - destruct (cut s (String c "")) as [[a' b']|]; [|discriminate].
    intros H. injection H as <- <-.
    destruct (IH a' eq_refl) as [-> Hc]. split; [reflexivity|].
    unfold Contains in *. simpl. rewrite E. simpl.
    destruct (Index a' (String c "")); [discriminate|reflexivity].
Qed.

Lemma cut_empty (c : ascii) : cut "" (String c "") = None.
Proof. reflexivity. Qed.

(** Once the loop of [genSplit] has as many rounds as the text has bytes,
    further rounds change nothing. *)
Lemma genSplitLoop_enough (c : ascii) (n m : nat) (s : string) :
  String.length s <= n -> String.length s <= m ->
  genSplitLoop n s (String c "") = genSplitLoop m s (String c "").
Proof.
  revert m s. induction n as [|n IH]; intros m s Hn Hm.
  - destruct s; [|simpl in Hn; lia]. now destruct m.
  - destruct m as [|m].
    + destruct s; [reflexivity|simpl in Hm; lia].
    + cbn [genSplitLoop].
      destruct (cut s (String c "")) as [[a b]|] eqn:E; [|reflexivity].
      f_equal. apply cut_single_inv in E as [-> _].
      rewrite length_append in Hn, Hm. simpl in Hn, Hm.
      apply IH; lia.
Qed.

Lemma Split_line (x rest : string) (c : ascii) :
  Contains x (String c "") = false ->
  Split (x ++ String c rest) (String c "") = x :: Split rest (String c "").
Proof.
  intros H. unfold Split. rewrite length_append. simpl.
  rewrite Nat.add_succ_r. cbn [genSplitLoop].
  rewrite (cut_single _ _ _ H). f_equal.
  apply genSplitLoop_enough; lia.
Qed.

Lemma Contains_nonempty (l m : string) :
  Contains l m = true -> m <> "" -> l <> "".
Proof.
  intros H Hm ->. unfold Contains in H. simpl in H.
  destruct m; [congruence|discriminate].
Qed.

End MoreStrings.

Section Enumerate.
Context {U : Unicode}.

Lemma packageLines_nonempty (lines : list string) :
  Forall (fun p => p <> "") (packageLines lines).
Proof.
  induction lines as [|l lines IH]; cbn [packageLines]; [constructor|].
  destruct (String.eqb (TrimPrefix (TrimSpace l) "package:") "") eqn:E; cbn [negb].
  - exact IH.
  - constructor; [now apply String.eqb_neq | exact IH].
Qed.

Lemma packageLines_length (lines : list string) :
  List.length (packageLines lines) <= List.length lines.
Proof.
  induction lines as [|l lines IH]; cbn [packageLines]; [auto|].
  destruct (negb _); simpl; lia.
Qed.

(** X1: [getPackages] never returns an empty identifier, whatever the
    listing tool printed and whether or not it failed, and it returns at
    most one identifier per line of the listing. *)
Theorem getPackages_identifiers (e : Env) :
  Forall (fun p => p <> "") (getPackages e)
  /\ List.length (getPackages e)
     <= List.length
          (Split (fst (runCmd e "pm" ["list"; "packages"; "--user"; "0"; "-3"]))
                 (String nl "")).
Proof.
  unfold getPackages.
  destruct (String.eqb _ ""); split;
    try apply packageLines_nonempty; try apply packageLines_length.
  - constructor.
  - simpl. lia.
Qed.

(** X2: the record [probePackage] returns is complete: it is about the
    identifier given, its entry point is never empty, and its label is
    empty only if the identifier is. *)
Theorem probePackage_record_complete (e : Env) (pkg : string) :
  exists info,
    probePackage e pkg = (Some info, false)
    /\ Package info = pkg
    /\ Main info <> ""
    /\ (Label info = "" -> pkg = "").
Proof.
  unfold probePackage. eexists. split; [reflexivity|]. cbn [Package Main Label].
  split; [reflexivity|]. split.
  - destruct (String.eqb (mainOf (resOutOf e pkg)) "") eqn:E; [discriminate|].
    now apply String.eqb_neq.
  - destruct (String.eqb (labelOf e (apkPathOf (pathOutOf e pkg))) "") eqn:E; [auto|].
    apply String.eqb_neq in E. intros H. contradiction.
Qed.

Lemma firstContaining_first (ls : list string) (m : string) :
  (firstContaining ls m = "" /\ Forall (fun l => Contains l m = false) ls)
  \/ exists before after,
       ls = (before ++ firstContaining ls m :: after)%list
       /\ Forall (fun l => Contains l m = false) before
       /\ Contains (firstContaining ls m) m = true.
Proof.
  induction ls as [|l ls IH]; cbn [firstContaining].
  - left. split; [reflexivity|constructor].
  - destruct (Contains l m) eqn:E.
    + right. exists [], ls. repeat split; [constructor|exact E].
    + destruct IH as [[H1 H2]|(before & after & H1 & H2 & H3)].
      * left. split; [exact H1|now constructor].
      * right. exists (l :: before), after. split; [simpl; now f_equal|].
        split; [now constructor|exact H3].
Qed.

(** X3: [firstLineContaining] returns the first scanned line that holds the
    marker, every line before it being free of it; it returns the empty
    string when no scanned line holds the marker, and for a non-empty
    marker only then. *)
Theorem firstLineContaining_first (s m : string) :
  ((firstLineContaining s m = ""
    /\ Forall (fun l => Contains l m = false) (scanLines s))
   \/ exists before after,
        scanLines s = (before ++ firstLineContaining s m :: after)%list
        /\ Forall (fun l => Contains l m = false) before
        /\ Contains (firstLineContaining s m) m = true)
  /\ (m = "" \/
      (firstLineContaining s m = "" <->
       Forall (fun l => Contains l m = false) (scanLines s))).
Proof.
  unfold firstLineContaining. split; [apply firstContaining_first|].
  destruct m as [|c m]; [now left|right]. split.
  - intros H.
    destruct (firstContaining_first (scanLines s) (String c m))
      as [[_ H2]|(before & after & _ & _ & H3)]; [exact H2|].
    apply Contains_nonempty in H3; [contradiction|discriminate].
  - apply firstContaining_none.
Qed.

(** X4: [parseSelection] refuses a line without a tab with the message
    [unexpected selection format], refuses a line whose text after the
    first tab has no pipe with [unexpected package|main format], and
    otherwise returns the text between the first tab and the first pipe
    after it, and all the text after that pipe. *)
Theorem parseSelection_cases (chosen : string) :
  (Contains chosen (String tab "") = false
   /\ parseSelection chosen = inr "unexpected selection format")
  \/ exists label line,
       chosen = label ++ String tab line
       /\ Contains label (String tab "") = false
       /\ ((Contains line "|" = false
            /\ parseSelection chosen = inr "unexpected package|main format")
           \/ exists pkg intent,
                line = pkg ++ "|" ++ intent
                /\ Contains pkg "|" = false
                /\ parseSelection chosen = inl (pkg, intent)).
Proof.
  rewrite parseSelection_cut.
  destruct (cut chosen (String tab "")) as [[label line]|] eqn:Et.
  - right. exists label, line.
    apply cut_single_inv in Et as [-> Hl]. split; [reflexivity|]. split; [exact Hl|].
    destruct (cut line "|") as [[pkg intent]|] eqn:Ep.
    + right. exists pkg, intent.
      apply cut_single_inv in Ep as [-> Hp]. auto.
    + left. apply cut_none in Ep. auto.
  - left. apply cut_none in Et. auto.
Qed.

End Enumerate.

(** ** The selector's input and the chosen line *)

Section SelectorInput.
Context {U : Unicode} {P : Pdqsort}.

Lemma fzfInputOf_cons (a : AppInfo) (apps : list AppInfo) :
  fzfInputOf (a :: apps) = formatLine a ++ fzfInputOf apps.
Proof.
  unfold fzfInputOf. cbn [map String.concat].
  destruct (map formatLine apps) eqn:E; [|reflexivity].
  cbn. now rewrite append_nil_r.
Qed.

(** X5: the text handed to the selector has one line per record, in the
    order of the slice: split at the newlines it gives back the exchange
    line of each record, and an empty rest after the last newline,
    provided that no field brings a newline of its own. *)
Theorem fzfInputOf_lines (apps : list AppInfo) :
  Forall (fun a => Contains (exchangeLine a) (String nl "") = false) apps ->
  Split (fzfInputOf apps) (String nl "") = (map exchangeLine apps ++ [""])%list.
Proof.
  induction 1 as [|a apps Ha _ IH]; [reflexivity|].
  rewrite fzfInputOf_cons. unfold formatLine.
  rewrite append_assoc. cbn [append].
  rewrite (Split_line _ _ nl Ha), IH. reflexivity.
Qed.

Lemma TrimSpace_formatLine (a : AppInfo) (c d : ascii) (l m : string) :
  Label a = String c l -> Main a = m ++ String d "" ->
  visible c = true -> visible d = true ->
  TrimSpace (formatLine a) = exchangeLine a.
Proof.
  intros Hl Hm Hc Hd.
  apply andb_true_iff in Hc as [Hc1 Hc2], Hd as [Hd1 Hd2].
  apply negb_true_iff in Hc2, Hd2.
  assert (Hs : exists t, exchangeLine a = String c t).
  { unfold exchangeLine. rewrite Hl. eexists. reflexivity. }
  assert (He : exists t, exchangeLine a = t ++ String d "").
  { unfold exchangeLine. rewrite Hm.
    exists (Label a ++ String tab "" ++ Package a ++ "|" ++ m).
    now rewrite !append_assoc. }
  destruct Hs as [t Hs], He as [t' He].
  unfold TrimSpace, formatLine. rewrite Hs.
  cbn [append trimSpaceStart]. rewrite Hc1, Hc2. cbn [negb].
  change (String c (t ++ String nl "")) with (String c t ++ String nl "").
  rewrite <- Hs, srev_app. cbn [srev append trimSpaceStop].
  replace (isASCIIbyte nl) with true by reflexivity.
  replace (asciiSpace nl) with true by reflexivity. cbn [negb].
  rewrite He at 1. rewrite srev_app. cbn [srev append trimSpaceStop].
  rewrite Hd1, Hd2. cbn [negb].
  cbn [srev]. rewrite srev_involutive. now rewrite <- He.
Qed.


(** X6: when the selector returns the line written for a record, the
    record's own identifier and entry point are dispatched and the process
    exits with 0: the store page for the sentinel entry point, the
    activity [identifier/entryPoint] otherwise.  This needs a label that
    starts with a visible ASCII byte and has no tab, an identifier without
    a pipe, and an entry point that ends with a visible ASCII byte. *)
Theorem handleChosen_own_line (a : AppInfo) (c d : ascii) (l m : string) :
  Label a = String c l -> Main a = m ++ String d "" ->
  visible c = true -> visible d = true ->
  Contains (Label a) (String tab "") = false ->
  Contains (Package a) "|" = false ->
  handleChosen (formatLine a)
  = {| events :=
         [if String.eqb (Main a) "UNKNOWN_MAIN"
          then Run "termux-open-url"
                   ["https://play.google.com/store/apps/details?id=" ++ Package a]
          else Run "am" ["start"; "--user"; "0"; "-n"; Package a ++ "/" ++ Main a]];
       exitCode := 0 |}.
Proof.
  intros Hl Hm Hc Hd Htab Hpipe.
  rewrite (handleChosen_formatLine a
             (TrimSpace_formatLine a c d l m Hl Hm Hc Hd) Htab Hpipe).
  unfold dispatch. destruct (String.eqb (Main a) "UNKNOWN_MAIN"); reflexivity.
Qed.

(** X7: of the selector, the diagnostics and the final command, which
    are what [events] records of lines 140-237 (the tool calls of the
    listing and of the probes are not among them), [main] runs the
    selector at most once, on the sorted records as formatted, and after it
    prints one diagnostic or runs one final command, never both and never
    two commands; without identifiers it prints its diagnostic and runs
    neither the selector nor a final command. *)
Theorem main_events_shape (e : Env) (collected : list AppInfo) :
  let o := main e collected in
  let stdin := fzfInputOf (sortApps collected) in
  (getPackages e = [] /\ events o = [PrintErr "no packages found"])
  \/ (getPackages e <> [] /\
      (events o = [RunSelector stdin]
       \/ (exists msg, events o = [RunSelector stdin; PrintErr msg])
       \/ (exists pkg intent, events o = [RunSelector stdin; dispatch pkg intent]))).
Proof.
  intros o stdin. unfold o, main.
  destruct (getPackages e) as [|p ps] eqn:Eg; [left; now split|].
  right. split; [discriminate|].
  cbn [List.length Nat.eqb]. unfold present. fold stdin.
  destruct (fzf e stdin) as [chosenBuf err]. destruct err; [now left|].
  unfold handleChosen.
  destruct (String.eqb (TrimSpace chosenBuf) ""); [now left|].
  destruct (parseSelection (TrimSpace chosenBuf)) as [[pkg intent]|msg].
  - right. right. now exists pkg, intent.
  - right. left. now exists msg.
Qed.

End SelectorInput.



Lemma fzfInputOf_lines_witness :
  Forall (fun a => Contains (exchangeLine a) (String nl "") = false)
         [Examples.apple; Examples.banana] /\
  Split (fzfInputOf [Examples.apple; Examples.banana]) (String nl "")
  = [exchangeLine Examples.apple; exchangeLine Examples.banana; ""].
Proof.
  assert (H : Forall (fun a => Contains (exchangeLine a) (String nl "") = false)
                     [Examples.apple; Examples.banana])
    by (repeat constructor).
  split; [exact H|].
  exact (fzfInputOf_lines [Examples.apple; Examples.banana] H).
Defined.

Lemma handleChosen_own_line_witness :
  Label Examples.chrome = String "C"%char "hrome" /\
  Main Examples.chrome = "com.android.chrome.Mai" ++ String "n"%char "" /\
  visible "C"%char = true /\ visible "n"%char = true /\
  Contains (Label Examples.chrome) (String tab "") = false /\
  Contains (Package Examples.chrome) "|" = false /\
  @handleChosen asciiOnly (formatLine Examples.chrome)
  = {| events := [Run "am" ["start"; "--user"; "0"; "-n";
                            "com.android.chrome/com.android.chrome.Main"]];
       exitCode := 0 |}.
Proof.
  do 6 (split; [reflexivity|]).
  exact (@handleChosen_own_line asciiOnly Examples.chrome "C"%char "n"%char
           "hrome" "com.android.chrome.Mai"
           eq_refl eq_refl eq_refl eq_refl eq_refl eq_refl).
Defined.

(** ** Labels *)

Section Labels.
Context {U : Unicode}.

Lemma trimLeftByte_head (s p : string) (c : ascii) :
  trimLeftByte s c <> String c p.
Proof.
  induction s as [|a s IH]; cbn [trimLeftByte]; [discriminate|].
  destruct (Ascii.eqb a c) eqn:E; [exact IH|].
  intros H. injection H as -> _. rewrite Ascii.eqb_refl in E. discriminate.
Qed.

Lemma trimLeftByte_suffix (s : string) (c : ascii) :
  exists pre, s = pre ++ trimLeftByte s c.
Proof.
  induction s as [|a s [pre IH]]; cbn [trimLeftByte]; [now exists ""|].
  destruct (Ascii.eqb a c).
  - exists (String a pre). simpl. now f_equal.
  - now exists "".
Qed.

Lemma trimRightByte_last (s p : string) (c : ascii) :
  trimRightByte s c <> p ++ String c "".
Proof.
  unfold trimRightByte. intros H.
  apply (f_equal srev) in H. rewrite srev_involutive, srev_app in H.
  exact (trimLeftByte_head _ _ _ H).
Qed.

Lemma Trim_no_cut (s p : string) (c : ascii) :
  Trim s c <> String c p /\ Trim s c <> p ++ String c "".
Proof.
  unfold Trim. split; [apply trimLeftByte_head|].
  intros H.
  destruct (trimLeftByte_suffix (trimRightByte s c) c) as [pre Hpre].
  rewrite H, <- append_assoc in Hpre.
  exact (trimRightByte_last _ _ _ Hpre).
Qed.

Lemma empty_no_cut (p : string) (c : ascii) :
  "" <> String c p /\ "" <> p ++ String c "".
Proof. split; [discriminate|]. now destruct p. Qed.

Lemma scanLabel_no_quote (ls : list string) (p : string) :
  scanLabel ls <> String "'"%char p /\ scanLabel ls <> p ++ "'".
Proof.
  induction ls as [|l ls IH]; cbn [scanLabel]; [apply empty_no_cut|].
  destruct (Contains l "application-label:"); [|exact IH].
  destruct (Index l "application-label:"); [apply Trim_no_cut|exact IH].
Qed.

(** X12: the label of a record is either the identifier itself or text
    taken from the badging dump with its quotes stripped: it neither
    starts nor ends with a single quote. *)
Theorem probePackage_label_unquoted (e : Env) (pkg : string) :
  exists info,
    probePackage e pkg = (Some info, false)
    /\ (Label info = pkg
        \/ forall p, Label info <> String "'"%char p /\ Label info <> p ++ "'").
Proof.
  unfold probePackage. eexists. split; [reflexivity|]. cbn [Label].
  destruct (String.eqb (labelOf e (apkPathOf (pathOutOf e pkg))) ""); [now left|].
  right. intros p. unfold labelOf.
  destruct (negb (String.eqb (apkPathOf (pathOutOf e pkg)) ""));
    [|apply empty_no_cut].
  destruct (runCmdBytes e "aapt" _) as [aaptOut err].
  destruct (negb err && negb (String.eqb aaptOut ""));
    [apply scanLabel_no_quote | apply empty_no_cut].
Qed.

End Labels.

(** ** More about the worker pool *)

Section PoolMore.
Context {U : Unicode}.
Import Pool.
Variable pkgs : list string.
Variable ncpu : Z.

Lemma reachable_invariant (s : State) :
  steps (List.length pkgs) (init ncpu pkgs) s -> invariant pkgs s.
Proof. intros H. eapply steps_invariant; [exact H | apply init_invariant]. Qed.

(** X8: identifiers are conserved, and no send ever waits: in every state
    of a run the identifiers still to send, in the two channels, held by
    the workers and collected add up to the number supplied, so channel
    [in] has room whenever the main goroutine has something left to send
    and channel [out] has room whenever a worker has a record to send. *)
Theorem pool_sends_never_block (s : State) :
  steps (List.length pkgs) (init ncpu pkgs) s ->
  List.length (toSend s) + List.length (inq s) + List.length (held (workers s))
    + List.length (outq s) + List.length (apps s) = List.length pkgs
  /\ (toSend s <> [] -> List.length (inq s) < List.length pkgs)
  /\ (forall ws1 info ws2,
        workers s = (ws1 ++ Sending info :: ws2)%list ->
        List.length (outq s) < List.length pkgs).
Proof.
  intros Hrun. destruct (reachable_invariant s Hrun) as (Hperm & _).
  apply Permutation_length in Hperm. unfold inFlight in Hperm.
  rewrite !length_app, !length_map in Hperm.
  split; [lia|]. split.
  - intros Hne. destruct (toSend s); [congruence|]. cbn in Hperm. lia.
  - intros ws1 info ws2 Hw. rewrite Hw, held_mid, !length_app in Hperm.
    cbn in Hperm. lia.
Qed.

(** X9: the channels are closed in order and nothing is sent on a closed
    channel: once [in] is closed the main goroutine has nothing left to
    send; a worker has returned only if [in] is closed and empty; once
    [out] is closed every worker has returned; and the collecting loop has
    ended only if [out] is closed and empty. *)
Theorem pool_closing_order (s : State) :
  steps (List.length pkgs) (init ncpu pkgs) s ->
  (inClosed s = true -> toSend s = [])
  /\ (In Returned (workers s) -> inClosed s = true /\ inq s = [])
  /\ (outClosed s = true ->
        all_returned (workers s) /\ forall info, ~ In (Sending info) (workers s))
  /\ (drained s = true -> outClosed s = true /\ outq s = []).
Proof.
  intros Hrun.
  destruct (reachable_invariant s Hrun) as (_ & Hclosed & Hret & Hout & Hdr & _).
  split; [exact Hclosed|]. split; [exact Hret|]. split; [|exact Hdr].
  intros Ho. destruct (Hout Ho) as [Hall _]. split; [exact Hall|].
  intros info Hin. unfold all_returned in Hall. rewrite Forall_forall in Hall.
  specialize (Hall _ Hin). discriminate.
Qed.

Lemma step_workers_length (s s' : State) :
  step (List.length pkgs) s s' ->
  List.length (workers s') = List.length (workers s).
Proof.
  intros Hstep.
  destruct Hstep as [s p ps Hs Hcap | s Hs Hc | s ws1 ws2 p q Hw Hq
                    | s ws1 ws2 Hw Hq Hc | s ws1 ws2 p e Hw
                    | s ws1 ws2 info Hw Hcap | s Hc Hall Ho
                    | s a q Hc Hq Hd | s Hc Hq Ho Hd];
    cbn [workers set_workers set_inq set_outq set_apps]; try reflexivity;
    rewrite Hw, !length_app; reflexivity.
Qed.

Lemma held_length (ws : list Worker) : List.length (held ws) <= List.length ws.
Proof.
  induction ws as [|w ws IH]; [auto|].
  unfold held in *. cbn [flat_map]. rewrite length_app.
  destruct w; cbn; lia.
Qed.

(** X10: the pool keeps the number of workers it started with, between 4
    and 16, so at most 16 identifiers are being probed or waiting to be
    sent at any time. *)
Theorem pool_bounded (s : State) :
  steps (List.length pkgs) (init ncpu pkgs) s ->
  Z.of_nat (List.length (workers s)) = numWorkers ncpu
  /\ 4 <= List.length (workers s) <= 16
  /\ List.length (held (workers s)) <= 16.
Proof.
  intros Hrun.
  assert (Hlen : List.length (workers s) = Z.to_nat (numWorkers ncpu)).
  { unfold steps in Hrun.
    remember (init ncpu pkgs) as s0 eqn:E0.
    assert (H0 : List.length (workers s0) = Z.to_nat (numWorkers ncpu))
      by (subst s0; apply repeat_length).
    clear E0. induction Hrun as [|s0 s1 s2 H1 _ IH]; [exact H0|].
    apply IH. now rewrite (step_workers_length _ _ H1). }
  pose proof (numWorkers_max_min ncpu) as Hn.
  pose proof (held_length (workers s)) as Hh.
  split; [|split]; try lia.
Qed.

Lemma in_mid_cases {A} (x w : A) (w' : A) (l1 l2 : list A) :
  In x (l1 ++ w' :: l2) -> x = w' \/ In x (l1 ++ w :: l2).
Proof.
  intros H. apply in_app_iff in H as [H|[H|H]].
  - right. apply in_app_iff. now left.
  - now left.
  - right. apply in_app_iff. right. now right.
Qed.

Lemma step_probed (s s' : State) :
  step (List.length pkgs) s s' ->
  (forall a, In (Sending a) (workers s) \/ In a (outq s) \/ In a (apps s) -> probed a) ->
  forall a, In (Sending a) (workers s') \/ In a (outq s') \/ In a (apps s') -> probed a.
Proof.
  intros Hstep Hp.
  destruct Hstep as [s p ps Hs Hcap | s Hs Hc | s ws1 ws2 p q Hw Hq
                    | s ws1 ws2 Hw Hq Hc | s ws1 ws2 p e Hw
                    | s ws1 ws2 info Hw Hcap | s Hc Hall Ho
                    | s a0 q Hc Hq Hd | s Hc Hq Ho Hd];
    cbn [workers outq apps set_workers set_inq set_outq set_apps];
    intros a Ha; try (apply Hp; exact Ha).
  - (* a worker receives *)
    apply Hp. destruct Ha as [Ha|Ha]; [left|now right].
    rewrite Hw. apply (in_mid_cases _ Receiving) in Ha as [Ha|Ha];
      [discriminate|exact Ha].
  - (* a worker returns *)
    apply Hp. destruct Ha as [Ha|Ha]; [left|now right].
    rewrite Hw. apply (in_mid_cases _ Receiving) in Ha as [Ha|Ha];
      [discriminate|exact Ha].
  - (* a worker probes *)
    destruct Ha as [Ha|Ha]; [|apply Hp; now right].
    apply (in_mid_cases _ (Probing p)) in Ha as [Ha|Ha].
    + destruct (probePackage_returns e p) as (info & He & Hi).
      rewrite He in Ha. cbn in Ha. injection Ha as ->.
      exists e. now rewrite Hi.
    + apply Hp. left. now rewrite Hw.
  - (* a worker sends *)
    destruct Ha as [Ha|[Ha|Ha]].
    + apply Hp. left. rewrite Hw.
      apply (in_mid_cases _ (Sending info)) in Ha as [Ha|Ha];
        [discriminate|exact Ha].
    + apply in_app_iff in Ha as [Ha|[<-|[]]].
      * apply Hp. right. now left.
      * apply Hp. left. rewrite Hw. apply in_elt.
    + apply Hp. right. now right.
  - (* the main goroutine collects *)
    destruct Ha as [Ha|[Ha|Ha]].
    + apply Hp. now left.
    + apply Hp. right. left. rewrite Hq. now right.
    + apply in_app_iff in Ha as [Ha|[<-|[]]].
      * apply Hp. right. now right.
      * apply Hp. right. left. rewrite Hq. now left.
Qed.

(** X11: no record is made up or carried over: every record in the two
    channels, in a worker's hands or in the collected slice is what
    [probePackage] returned for its own identifier, and a collected
    record is about an identifier that was supplied. *)
Theorem pool_records_probed (s : State) :
  steps (List.length pkgs) (init ncpu pkgs) s ->
  forall a,
    In (Sending a) (workers s) \/ In a (outq s) \/ In a (apps s) ->
    probed a /\ (In a (apps s) -> In (Package a) pkgs).
Proof.
  intros Hrun a Ha. split.
  - revert a Ha. unfold steps in Hrun.
    remember (init ncpu pkgs) as s0 eqn:E0.
    assert (H0 : forall a, In (Sending a) (workers s0) \/ In a (outq s0)
                           \/ In a (apps s0) -> probed a).
    { subst s0. cbn. intros a [Ha|[[]|[]]].
      apply repeat_spec in Ha. discriminate. }
    clear E0. induction Hrun as [|s0 s1 s2 H1 _ IH]; [exact H0|].
    apply IH. exact (step_probed _ _ H1 H0).
  - intros Hin. destruct (reachable_invariant s Hrun) as (Hperm & _).
    eapply Permutation_in; [apply Permutation_sym, Hperm|].
    unfold inFlight. rewrite !in_app_iff. do 4 right. now apply in_map.
Qed.

End PoolMore.

Lemma steps_trans {U : Unicode} (cap : nat) (s1 s2 s3 : Pool.State) :
  Pool.steps cap s1 s2 -> Pool.steps cap s2 s3 -> Pool.steps cap s1 s3.
Proof.
  unfold Pool.steps. induction 1 as [|s1 s s2 H1 _ IH]; [auto|].
  intros H3. eapply Relation_Operators.rt1n_trans; [exact H1 | now apply IH].
Qed.

Lemma poolSending_reached :
  @Pool.steps asciiOnly 1 (Pool.init 1 ["com.example.app"]) Examples.poolSending.
Proof.
  unfold Pool.steps.
  let s0 := eval cbv in (Pool.init 1 ["com.example.app"]) in
  change (Pool.init 1 ["com.example.app"]) with s0.
  eapply Relation_Operators.rt1n_trans;
    [eapply Pool.main_sends; [reflexivity | cbn; lia] | cbn].
  eapply Relation_Operators.rt1n_trans;
    [eapply Pool.main_closes_in; reflexivity | cbn].
  eapply Relation_Operators.rt1n_trans;
    [eapply (Pool.worker_receives _ _ [] _ "com.example.app" []); reflexivity | cbn].
  eapply Relation_Operators.rt1n_trans;
    [eapply (Pool.worker_probes _ _ [] _ "com.example.app" Examples.noActivity);
     reflexivity | cbn].
  apply Relation_Operators.rt1n_refl.
Qed.

Lemma poolDone_reached :
  @Pool.steps asciiOnly 1 (Pool.init 1 ["com.example.app"]) Examples.poolDone.
Proof.
  apply (steps_trans 1 _ Examples.poolSending); [exact poolSending_reached|].
  unfold Pool.steps, Examples.poolSending.
  eapply Relation_Operators.rt1n_trans;
    [eapply (Pool.worker_sends _ _ [] _ _); [reflexivity | cbn; lia] | cbn].
  eapply Relation_Operators.rt1n_trans;
    [eapply (Pool.worker_returns _ _ [] _); reflexivity | cbn].
  eapply Relation_Operators.rt1n_trans;
    [eapply (Pool.worker_returns _ _ [Pool.Returned] _); reflexivity | cbn].
  eapply Relation_Operators.rt1n_trans;
    [eapply (Pool.worker_returns _ _ [Pool.Returned; Pool.Returned] _);
     reflexivity | cbn].
  eapply Relation_Operators.rt1n_trans;
    [eapply (Pool.worker_returns _ _ [Pool.Returned; Pool.Returned; Pool.Returned] _);
     reflexivity | cbn].
  eapply Relation_Operators.rt1n_trans;
    [eapply Pool.waiter_closes_out; [reflexivity | repeat constructor | reflexivity]
    | cbn].
  eapply Relation_Operators.rt1n_trans;
    [eapply Pool.main_collects; reflexivity | cbn].
  eapply Relation_Operators.rt1n_trans;
    [eapply Pool.main_leaves_loop; reflexivity | cbn].
  apply Relation_Operators.rt1n_refl.
Qed.

Lemma pool_sends_never_block_witness :
  @Pool.steps asciiOnly 1 (Pool.init 1 ["com.example.app"]) Examples.poolSending /\
  List.length (Pool.outq Examples.poolSending) < 1.
Proof.
  split; [exact poolSending_reached|].
  exact (proj2 (proj2 (@pool_sends_never_block asciiOnly ["com.example.app"] 1
                         Examples.poolSending poolSending_reached))
           [] _ _ eq_refl).
Defined.

Lemma pool_closing_order_witness :
  @Pool.steps asciiOnly 1 (Pool.init 1 ["com.example.app"]) Examples.poolDone /\
  Pool.outClosed Examples.poolDone = true /\
  Pool.all_returned (Pool.workers Examples.poolDone) /\
  Pool.toSend Examples.poolDone = [].
Proof.
  split; [exact poolDone_reached|]. split; [reflexivity|].
  pose proof (@pool_closing_order asciiOnly ["com.example.app"] 1
                Examples.poolDone poolDone_reached) as H.
  exact (conj (proj1 (proj1 (proj2 (proj2 H)) eq_refl)) (proj1 H eq_refl)).
Defined.

Lemma pool_bounded_witness :
  @Pool.steps asciiOnly 1 (Pool.init 1 ["com.example.app"]) Examples.poolSending /\
  Z.of_nat (List.length (Pool.workers Examples.poolSending)) = 4%Z /\
  List.length (Pool.held (Pool.workers Examples.poolSending)) <= 16.
Proof.
  split; [exact poolSending_reached|].
  pose proof (@pool_bounded asciiOnly ["com.example.app"] 1
                Examples.poolSending poolSending_reached) as H.
  exact (conj (proj1 H) (proj2 (proj2 H))).
Defined.

Lemma pool_records_probed_witness :
  let a := {| Label := "com.example.app"; Package := "com.example.app";
              Main := "UNKNOWN_MAIN" |} in
  @Pool.steps asciiOnly 1 (Pool.init 1 ["com.example.app"]) Examples.poolDone /\
  In a (Pool.apps Examples.poolDone) /\
  @probed asciiOnly a /\
  In (Package a) ["com.example.app"].
Proof.
  intros a.
  assert (Ha : In a (Pool.apps Examples.poolDone)) by (left; reflexivity).
  split; [exact poolDone_reached|]. split; [exact Ha|].
  pose proof (@pool_records_probed asciiOnly ["com.example.app"] 1
                Examples.poolDone poolDone_reached a
                (or_intror (or_intror Ha))) as H.
  exact (conj (proj1 H) (proj2 H Ha)).
Defined.

(** ** Lines identify records *)

Section Lines.

Lemma exchangeLine_fields (a : AppInfo) :
  Contains (Label a) (String tab "") = false ->
  Contains (Package a) "|" = false ->
  cut (exchangeLine a) (String tab "") = Some (Label a, Package a ++ "|" ++ Main a)
  /\ cut (Package a ++ "|" ++ Main a) "|" = Some (Package a, Main a).
Proof.
  intros Ht Hp. unfold exchangeLine. split.
  - exact (cut_single _ _ tab Ht).
  - exact (cut_single _ _ "|"%char Hp).
Qed.

(** X14: the exchange line identifies its record: two different records
    whose labels have no tab and whose identifiers have no pipe are
    written as two different lines, so the line the selector returns
    stands for one record only. *)
Theorem exchangeLine_distinct (a b : AppInfo) :
  Contains (Label a) (String tab "") = false ->
  Contains (Label b) (String tab "") = false ->
  Contains (Package a) "|" = false ->
  Contains (Package b) "|" = false ->
  a <> b ->
  exchangeLine a <> exchangeLine b /\ formatLine a <> formatLine b.
Proof.
  intros Hta Htb Hpa Hpb Hab.
  assert (H : exchangeLine a <> exchangeLine b).
  { intros E. apply Hab.
    destruct (exchangeLine_fields a Hta Hpa) as [Ha1 Ha2].
    destruct (exchangeLine_fields b Htb Hpb) as [Hb1 Hb2].
    rewrite E in Ha1.
    pose proof (eq_trans (eq_sym Ha1) Hb1) as E1. injection E1 as El Er.
    assert (E2 : Some (Package a, Main a) = Some (Package b, Main b)).
    { rewrite <- Ha2, <- Hb2. f_equal. exact Er. }
    injection E2 as Ep Em.
    destruct a, b. cbn in *. congruence. }
  split; [exact H|].
  unfold formatLine. intros E. apply H.
  apply (f_equal srev) in E. rewrite !srev_app in E. cbn in E.
  injection E as E. apply (f_equal srev) in E.
  now rewrite !srev_involutive in E.
Qed.

End Lines.

Lemma exchangeLine_distinct_witness :
  Contains (Label Examples.cameraA) (String tab "") = false /\
  Contains (Label Examples.cameraB) (String tab "") = false /\
  Contains (Package Examples.cameraA) "|" = false /\
  Contains (Package Examples.cameraB) "|" = false /\
  Examples.cameraA <> Examples.cameraB /\
  exchangeLine Examples.cameraA <> exchangeLine Examples.cameraB /\
  formatLine Examples.cameraA <> formatLine Examples.cameraB.
Proof.
  assert (H : Examples.cameraA <> Examples.cameraB) by discriminate.
  do 4 (split; [reflexivity|]). split; [exact H|].
  exact (exchangeLine_distinct Examples.cameraA Examples.cameraB
           eq_refl eq_refl eq_refl eq_refl H).
Defined.
